(** * timer-react: timer lifecycle and local persistence

    A shallow embedding of the stateful core of the timer application:

    - [JS]      the platform primitives the sources call
                ([String.prototype.includes], [Number.prototype.toString],
                [parseInt], [JSON.stringify] / [JSON.parse] on timer records);
    - [Storage] src/storage.ts, the [localStorage] wrapper;
    - [Add]     the [Add] slide of src/components/Timer/Timer.tsx
                ([calcTime], [generateUUID], [saveTimer]);
    - [Timer]   the [Timer] component of src/components/Timer/Timer.tsx,
                together with the browser timers it arms;
    - [App]     [App.getLandingData], with the promise job queue it runs on.

    Numbers are JavaScript numbers that hold integers: they are modelled as
    [Z] (exact below 2^53), with [NaN] and [undefined] added where the code
    can meet them.  Where a total can leave the range of binary64, module
    [Double] has [calcTime] and the guard of [saveTimer] on binary64 numbers
    in full.  Strings are sequences of code units, modelled as [string].

    Module [Timer] has one timer in its window; module [Page] has the
    timers that [Landing.showTimers] mounts side by side, which share the
    document title. *)

From Stdlib Require Import ZArith String Ascii List Lia DecimalString DecimalZ
  DecimalPos.
From Stdlib Require SpecFloat.
From stdpp Require Import gmap strings list fin_maps sorting.

Open Scope Z_scope.

(* ===================================================================== *)
(** ** Platform primitives                                                *)
(* ===================================================================== *)

Module JS.

(** The double quote and the backslash, by code. *)
Definition dq : ascii := "034"%char.
Definition bs : ascii := "092"%char.

(** [s.startsWith(p)] *)
Fixpoint startsWith (s p : string) {struct p} : bool :=
  match p with
  | EmptyString => true
  | String b p' =>
      match s with
      | EmptyString => false
      | String a s' => Ascii.eqb a b && startsWith s' p'
      end
  end.

(** [s.includes(p)]: [p] occurs in [s] as a substring. *)
Fixpoint includes (s p : string) : bool :=
  startsWith s p ||
  match s with
  | EmptyString => false
  | String _ s' => includes s' p
  end.

(** [n.toString()] of an integer-valued number. *)
Definition Number_toString (n : Z) : string :=
  NilEmpty.string_of_int (Z.to_int n).

(** A JavaScript number as the [Add] slide meets it: [undefined] for an
    omitted optional argument, [NaN], or an integer (what [parseInt] gives
    on the value of a number input, which the [Input] component keeps
    within its [min] and [max]). *)
Inductive number : Type :=
| Undefined
| NaN
| Num (n : Z).

Definition isNaN (x : number) : bool :=
  match x with
  | Num _ => false
  | _ => true                (* isNaN(undefined) is true as well *)
  end.

(** Truthiness of a number: [undefined], [NaN] and [0] are falsy. *)
Definition truthy (x : number) : bool :=
  match x with
  | Num n => negb (n =? 0)
  | _ => false
  end.

(** Arithmetic on numbers; anything involving [NaN] or [undefined]
    is [NaN]. *)
Definition mul (x y : number) : number :=
  match x, y with
  | Num a, Num b => Num (a * b)
  | _, _ => NaN
  end.

Definition add (x y : number) : number :=
  match x, y with
  | Num a, Num b => Num (a + b)
  | _, _ => NaN
  end.

(** [x > 0]; every comparison with [NaN] is false. *)
Definition gt0 (x : number) : bool :=
  match x with
  | Num n => 0 <? n
  | _ => false
  end.

Definition is_digit (c : ascii) : bool :=
  let n := nat_of_ascii c in (48 <=? n)%nat && (n <=? 57)%nat.

(** The longest prefix of [s] whose characters satisfy [p], and the rest. *)
Fixpoint span (p : ascii -> bool) (s : string) : string * string :=
  match s with
  | EmptyString => (EmptyString, EmptyString)
  | String c s' =>
      if p c then let '(a, r) := span p s' in (String c a, r)
      else (EmptyString, s)
  end.

(** [parseInt(s)] on the value of a number input: an optional sign, then
    the longest run of decimal digits; [NaN] when there is no digit.
    (The value of an [<input type="number">] is either empty or a valid
    floating-point literal, so neither leading white space nor a radix
    prefix arises.) *)
Definition parseDigits (s : string) : option Z :=
  let '(ds, _) := span is_digit s in
  match ds with
  | EmptyString => None
  | _ => option_map Z.of_uint (NilEmpty.uint_of_string ds)
  end.

Definition parseInt (s : string) : number :=
  match s with
  | String "-" s' =>
      match parseDigits s' with Some n => Num (- n) | None => NaN end
  | String "+" s' =>
      match parseDigits s' with Some n => Num n | None => NaN end
  | _ =>
      match parseDigits s with Some n => Num n | None => NaN end
  end.

End JS.

(* ===================================================================== *)
(** ** The timer record and its JSON form                                 *)
(* ===================================================================== *)

(** [TimerData] of src/types: [{ id: number, time: number, title: string }]. *)
Record TimerData : Type := mkTimerData {
  id : Z;
  time : Z;
  title : string
}.

(** What [JSON.parse] can give back for a slot of the timer store. *)
Inductive jsvalue : Type :=
| JNull
| JTimer (d : TimerData).

Module JSON.
Import JS.

Definition hexdigit (n : N) : ascii :=
  if (n <? 10)%N then ascii_of_N (48 + n) else ascii_of_N (87 + n).

Definition hexval (c : ascii) : option N :=
  let n := N_of_ascii c in
  if ((48 <=? n) && (n <=? 57))%N then Some (n - 48)%N
  else if ((97 <=? n) && (n <=? 102))%N then Some (n - 87)%N
  else if ((65 <=? n) && (n <=? 70))%N then Some (n - 55)%N
  else None.

(** QuoteJSONString, one code unit: the two-character escapes, [\u00xx]
    for the other control characters, the character itself otherwise. *)
Definition escape_char (c : ascii) : string :=
  let n := N_of_ascii c in
  if (n =? 8)%N then String bs (String "b" EmptyString)
  else if (n =? 9)%N then String bs (String "t" EmptyString)
  else if (n =? 10)%N then String bs (String "n" EmptyString)
  else if (n =? 12)%N then String bs (String "f" EmptyString)
  else if (n =? 13)%N then String bs (String "r" EmptyString)
  else if (n =? 34)%N then String bs (String dq EmptyString)
  else if (n =? 92)%N then String bs (String bs EmptyString)
  else if (n <? 32)%N then
    String bs (String "u" (String "0" (String "0"
      (String (hexdigit (n / 16)) (String (hexdigit (n mod 16)) EmptyString)))))
  else String c EmptyString.

Fixpoint escape (s : string) : string :=
  match s with
  | EmptyString => EmptyString
  | String c s' => escape_char c +:+ escape s'
  end.

Definition quote (s : string) : string :=
  String dq (escape s +:+ String dq EmptyString).

(** [JSON.stringify] of a timer record (its properties in creation
    order) and of [null]. *)
Definition stringify_timer (d : TimerData) : string :=
  String "{" (quote "id" +:+ String ":" (Number_toString (id d) +:+
  String "," (quote "time" +:+ String ":" (Number_toString (time d) +:+
  String "," (quote "title" +:+ String ":" (quote (title d) +:+
  String "}" EmptyString)))))).

Definition stringify (v : jsvalue) : string :=
  match v with
  | JNull => "null"
  | JTimer d => stringify_timer d
  end.

(** The character a two-character escape stands for. *)
Definition unescape (e : ascii) : option ascii :=
  let n := N_of_ascii e in
  if (n =? 34)%N then Some dq
  else if (n =? 92)%N then Some bs
  else if (n =? 47)%N then Some "/"%char
  else if (n =? 98)%N then Some (ascii_of_N 8)
  else if (n =? 102)%N then Some (ascii_of_N 12)
  else if (n =? 110)%N then Some (ascii_of_N 10)
  else if (n =? 114)%N then Some (ascii_of_N 13)
  else if (n =? 116)%N then Some (ascii_of_N 9)
  else None.

Definition hex4 (a b c d : ascii) : option ascii :=
  match hexval a, hexval b, hexval c, hexval d with
  | Some 0%N, Some 0%N, Some x, Some y => Some (ascii_of_N (16 * x + y))
  | _, _, _, _ => None       (* malformed, or a code unit above 255 *)
  end.

Definition push (c : ascii) (r : option (string * string))
  : option (string * string) :=
  match r with
  | Some (t, rest) => Some (String c t, rest)
  | None => None
  end.

(** The body of a JSON string, up to and including its closing quote;
    gives the string denoted and what follows it. *)
Fixpoint read_string (s : string) : option (string * string) :=
  match s with
  | EmptyString => None
  | String c s' =>
      if Ascii.eqb c dq then Some (EmptyString, s')
      else if Ascii.eqb c bs then
        match s' with
        | EmptyString => None
        | String e s'' =>
            if Ascii.eqb e "u" then
              match s'' with
              | String h1 (String h2 (String h3 (String h4 s3))) =>
                  match hex4 h1 h2 h3 h4 with
                  | Some c' => push c' (read_string s3)
                  | None => None
                  end
              | _ => None
              end
            else
              match unescape e with
              | Some c' => push c' (read_string s'')
              | None => None
              end
        end
      else if (N_of_ascii c <? 32)%N then None
      else push c (read_string s')
  end.

(** [strip p s]: [s] without its prefix [p]. *)
Fixpoint strip (p s : string) {struct p} : option string :=
  match p with
  | EmptyString => Some s
  | String b p' =>
      match s with
      | EmptyString => None
      | String a s' => if Ascii.eqb a b then strip p' s' else None
      end
  end.

Definition is_num_char (c : ascii) : bool :=
  is_digit c || Ascii.eqb c "-".

(** A JSON integer literal: exactly what [Number_toString] prints. *)
Definition parse_number (ds : string) : option Z :=
  match NilEmpty.int_of_string ds with
  | Some d =>
      let n := Z.of_int d in
      if String.eqb (Number_toString n) ds then Some n else None
  | None => None
  end.

Definition read_number (s : string) : option (Z * string) :=
  let '(ds, rest) := span is_num_char s in
  match parse_number ds with
  | Some n => Some (n, rest)
  | None => None
  end.

Definition parse_timer (s : string) : option TimerData :=
  match strip (String "{" (quote "id" +:+ String ":" EmptyString)) s with
  | None => None
  | Some r1 =>
  match read_number r1 with
  | None => None
  | Some (i, r2) =>
  match strip (String "," (quote "time" +:+ String ":" EmptyString)) r2 with
  | None => None
  | Some r3 =>
  match read_number r3 with
  | None => None
  | Some (t, r4) =>
  match strip (String "," (quote "title" +:+ String ":" (String dq EmptyString))) r4 with
  | None => None
  | Some r5 =>
  match read_string r5 with
  | None => None
  | Some (ti, r6) =>
      if String.eqb r6 (String "}" EmptyString)
      then Some (mkTimerData i t ti) else None
  end end end end end end.

(** [JSON.parse] on the texts the timer store holds: [null] and the
    serialisation of a timer record.  [None] is a thrown [SyntaxError];
    texts of another shape are outside this model and read as [None]. *)
Definition parse (s : string) : option jsvalue :=
  if String.eqb s "null" then Some JNull
  else option_map JTimer (parse_timer s).

End JSON.

(* ===================================================================== *)
(** ** src/storage.ts                                                     *)
(* ===================================================================== *)

Module Storage.

(** [localStorage] is a finite map from string keys to string values,
    [gmap string string]. *)

Record t : Type := { prefix : string }.

(** [constructor(prefix?)]: a missing or empty prefix gives ['']. *)
Definition new (p : option string) : t :=
  match p with
  | Some (String c p') => {| prefix := String c p' |}
  | _ => {| prefix := EmptyString |}
  end.

(** [prefixed(key)] *)
Definition prefixed (st : t) (key : string) : string :=
  if JS.includes key (prefix st) then key
  else
    match prefix st with
    | EmptyString => key
    | _ => prefix st +:+ String "-" key
    end.

(** [get(key)]: [localStorage.getItem] gives [null] for a missing key,
    which [JSON.parse] reads as the text [null]. *)
Definition get (st : t) (ls : gmap string string) (key : string) : option jsvalue :=
  match ls !! prefixed st key with
  | Some s => JSON.parse s
  | None => JSON.parse "null"
  end.

(** [set(key, value)] *)
Definition set (st : t) (ls : gmap string string) (key : string) (value : jsvalue)
  : gmap string string :=
  <[prefixed st key := JSON.stringify value]> ls.

(** [delete(key)] *)
Definition delete (st : t) (ls : gmap string string) (key : string) : gmap string string :=
  base.delete (prefixed st key) ls.

(** [Object.keys(localStorage)] *)
Definition Object_keys (ls : gmap string string) : list string :=
  (map_to_list ls).*1.

(** [keys()] *)
Definition keys (st : t) (ls : gmap string string) : list string :=
  match prefix st with
  | EmptyString => Object_keys ls
  | _ => List.filter (fun key => JS.includes key (prefix st)) (Object_keys ls)
  end.

End Storage.

(* ===================================================================== *)
(** ** The [Add] slide (src/components/Timer/Timer.tsx)                    *)
(* ===================================================================== *)

Module Add.
Import JS.

(** [storage = new Storage('timer')] *)
Definition storage : Storage.t := Storage.new (Some "timer"%string).

(** [generateUUID()].  Its two draws from the environment are arguments:
    [uuid] is [baseArray[seed]], one of the eight random 32-bit values,
    and [now] is [Date.now()]. *)
Definition generateUUID (uuid now : Z) : Z := Z.abs (uuid + now).

(** [calcTime(h?, m?, s?)] *)
Definition calcTime (h m s : number) : number :=
  let hours := if truthy h then mul h (Num 3600) else Num 0 in
  let minutes := if truthy m then mul m (Num 60) else Num 0 in
  let seconds := if truthy s then s else Num 0 in
  add (add hours minutes) seconds.

(** The values [saveTimer] reads through its refs; [None] is the
    [undefined] that optional chaining gives for a ref not mounted. *)
Record form : Type := {
  title_value : option string;
  hours_value : option string;
  minutes_value : option string;
  seconds_value : option string
}.

Definition parseInt_value (v : option string) : number :=
  match v with
  | Some s => parseInt s
  | None => NaN
  end.

(** Calls made on the props of the slide. *)
Inductive call : Type :=
| onBack
| onRefresh
| onMessage (message : string).

(** The slide with what it acts on: [localStorage], its [error] state
    and the calls it has made on its props. *)
Record t : Type := {
  ls : gmap string string;
  error : bool;
  calls : list call
}.

Definition number_value (x : number) : Z :=
  match x with
  | Num n => n
  | _ => 0
  end.

(** The guard of [saveTimer]: [!isNaN(time) && time > 0]. *)
Definition guard (time : number) : bool := negb (isNaN time) && gt0 time.

(** [saveTimer()], with the write of [storage.set] and its [then]
    callback run to completion. *)
Definition saveTimer (f : form) (uuid now : Z) (a : t) : t :=
  let title := title_value f in
  let hours := parseInt_value (hours_value f) in
  let minutes := parseInt_value (minutes_value f) in
  let seconds := parseInt_value (seconds_value f) in
  let time := calcTime hours minutes seconds in
  if guard time then
    let id := generateUUID uuid now in
    let saveData :=
      {| id := id;
         time := number_value time;
         title := match title with
                  | Some (String c r) => String c r
                  | _ => EmptyString
                  end |} in
    {| ls := Storage.set storage (ls a) (Number_toString id) (JTimer saveData);
       error := error a;
       calls := calls a ++ [onBack; onRefresh;
                            onMessage "Timer successfully added"] |}
  else
    {| ls := ls a; error := true; calls := calls a |}.

End Add.

(* ===================================================================== *)
(** ** [calcTime] and the guard of [saveTimer] on binary64 numbers         *)
(* ===================================================================== *)

Module Double.

(** A JavaScript number in full: an IEEE 754 binary64 value, as
    [SpecFloat] specifies them (53 bits of precision, infinities at
    exponent 1024), with its signed zeros, its infinities and [NaN];
    [Undefined] is an omitted optional argument.  Where [JS.number] takes a
    number for the integer it holds, here a result is rounded as binary64
    rounds it, to nearest and ties to even, and overflows to an infinity. *)
Inductive number : Type :=
| Undefined
| Float (x : SpecFloat.spec_float).

Definition NaN : number := Float SpecFloat.S754_nan.

(** The number for an integer literal, or for the integer [parseInt] has
    read. *)
Definition of_Z (n : Z) : number :=
  Float (SpecFloat.binary_normalize 53 1024 n 0 false).

(** [undefined] in arithmetic and comparisons is [NaN]. *)
Definition ToNumber (x : number) : SpecFloat.spec_float :=
  match x with
  | Undefined => SpecFloat.S754_nan
  | Float f => f
  end.

Definition isNaN (x : number) : bool :=
  match ToNumber x with
  | SpecFloat.S754_nan => true
  | _ => false
  end.

(** Truthiness of a number: [undefined], [NaN], [0] and [-0] are falsy. *)
Definition truthy (x : number) : bool :=
  match x with
  | Float (SpecFloat.S754_finite _ _ _) => true
  | Float (SpecFloat.S754_infinity _) => true
  | _ => false
  end.

Definition mul (x y : number) : number :=
  Float (SpecFloat.SFmul 53 1024 (ToNumber x) (ToNumber y)).

Definition add (x y : number) : number :=
  Float (SpecFloat.SFadd 53 1024 (ToNumber x) (ToNumber y)).

(** [x > y], [x < y] and [x <= y]; every comparison with [NaN] is
    false. *)
Definition gt (x y : number) : bool := SpecFloat.SFltb (ToNumber y) (ToNumber x).
Definition lt (x y : number) : bool := SpecFloat.SFltb (ToNumber x) (ToNumber y).

(** [parseInt(s)]: the number for the integer that [JS.parseInt] reads,
    so [Infinity] from about 309 digits on. *)
Definition parseInt (s : string) : number :=
  match JS.parseInt s with
  | JS.Num n => of_Z n
  | _ => NaN
  end.

(** [Add.calcTime(h?, m?, s?)] *)
Definition calcTime (h m s : number) : number :=
  let hours := if truthy h then mul h (of_Z 3600) else of_Z 0 in
  let minutes := if truthy m then mul m (of_Z 60) else of_Z 0 in
  let seconds := if truthy s then s else of_Z 0 in
  add (add hours minutes) seconds.

Definition parseInt_value (v : option string) : number :=
  match v with
  | Some s => parseInt s
  | None => NaN
  end.

(** The total [Add.saveTimer] computes from the form, and its guard
    [!isNaN(time) && time > 0]. *)
Definition total (f : Add.form) : number :=
  calcTime (parseInt_value (Add.hours_value f))
           (parseInt_value (Add.minutes_value f))
           (parseInt_value (Add.seconds_value f)).

Definition guard (time : number) : bool :=
  negb (isNaN time) && gt time (of_Z 0).

End Double.

(* ===================================================================== *)
(** ** The [Timer] component (src/components/Timer/Timer.tsx)              *)
(* ===================================================================== *)

(** One mounted [Timer] is modelled, with the part of the browser it
    acts on; that window is written by this timer alone (the timers of a
    page that share the title are in [Page], below).  [setState] takes
    effect at once: the component reads [this.state] back right after it
    ([updateTitle] in [countDown], the test for 0 in the interval body), as
    React lets it in a timer callback. *)

Module Timer.
Import JS.

(** [TimerProps], the fields that matter here. *)
Record Props : Type := { props_time : Z; props_title : option string }.

(** [TimerState] *)
Record State : Type := { paused : bool; stopped : bool; state_time : Z }.

(** The two closures [startTimer] hands to the browser: the body of its
    [setInterval] (period 1000) and the body of its [setTimeout] (160). *)
Inductive kind : Type :=
| Interval
| Timeout.

(** An armed browser timer. *)
Record pending : Type := { handle : nat; due : Z; what : kind }.

(** The part of the browser the component touches: the document title,
    the clock in milliseconds, and the list of armed timers with the
    next free handle. *)
Record Window : Type := {
  document_title : string;
  clock : Z;
  next_handle : nat;
  timers : list pending
}.

(** A mounted [Timer] with its window. *)
Record t : Type := {
  props : Props;
  state : State;
  defaultTime : Z;
  domTitle : string;
  elapsedTime : Z;
  interval : nat;
  window : Window
}.

Definition with_state (st : State) (s : t) : t :=
  {| props := props s; state := st; defaultTime := defaultTime s;
     domTitle := domTitle s; elapsedTime := elapsedTime s;
     interval := interval s; window := window s |}.

Definition with_window (w : Window) (s : t) : t :=
  {| props := props s; state := state s; defaultTime := defaultTime s;
     domTitle := domTitle s; elapsedTime := elapsedTime s;
     interval := interval s; window := w |}.

Definition with_elapsedTime (e : Z) (s : t) : t :=
  {| props := props s; state := state s; defaultTime := defaultTime s;
     domTitle := domTitle s; elapsedTime := e;
     interval := interval s; window := window s |}.

Definition with_interval (h : nat) (s : t) : t :=
  {| props := props s; state := state s; defaultTime := defaultTime s;
     domTitle := domTitle s; elapsedTime := elapsedTime s;
     interval := h; window := window s |}.

Definition set_title (ti : string) (w : Window) : Window :=
  {| document_title := ti; clock := clock w;
     next_handle := next_handle w; timers := timers w |}.

Definition set_timers (l : list pending) (w : Window) : Window :=
  {| document_title := document_title w; clock := clock w;
     next_handle := next_handle w; timers := l |}.

(** [window.setInterval(f, ms)] and [setTimeout(f, ms)]: arm a timer
    under a fresh handle, which is returned. *)
Definition arm (k : kind) (ms : Z) (w : Window) : nat * Window :=
  (next_handle w,
   {| document_title := document_title w; clock := clock w;
      next_handle := S (next_handle w);
      timers := timers w ++ [{| handle := next_handle w;
                                due := clock w + ms; what := k |}] |}).

(** [clearInterval(h)] *)
Definition clear (h : nat) (w : Window) : Window :=
  set_timers (List.filter (fun p => negb (Nat.eqb (handle p) h)) (timers w)) w.

(** [constructor(props)]: state [{ paused: true, stopped: false, time: 0 }],
    [defaultTime] from the props, [domTitle] from the document. *)
Definition constructor (p : Props) (w : Window) : t :=
  {| props := p;
     state := {| paused := true; stopped := false; state_time := 0 |};
     defaultTime := props_time p;
     domTitle := document_title w;
     elapsedTime := 0;
     interval := 0%nat;
     window := w |}.

(** [componentDidMount()] *)
Definition componentDidMount (s : t) : t :=
  with_state {| paused := paused (state s); stopped := stopped (state s);
                state_time := props_time (props s) |} s.

(** [displayNumber(value)] *)
Definition displayNumber (value : Z) : string :=
  let number := Number_toString value in
  if (String.length number <? 2)%nat then String "0" number else number.

(** [getHours()], [getMinutes()], [getSeconds()]: [Math.floor] of a
    quotient is [Z.div], the remainder [%] is [Z.rem]. *)
Definition getHours (s : t) : string :=
  displayNumber (state_time (state s) / 3600).

Definition getMinutes (s : t) : string :=
  displayNumber (Z.rem (state_time (state s)) 3600 / 60).

Definition getSeconds (s : t) : string :=
  displayNumber (Z.rem (Z.rem (state_time (state s)) 3600) 60).

(** The en dash U+2013, in UTF-8. *)
Definition en_dash : string :=
  String "226" (String "128" (String "147" EmptyString)).

(** [updateTitle()] *)
Definition updateTitle (s : t) : t :=
  let name := match props_title (props s) with
              | Some (String c r) => String c r
              | _ => "Timer"%string
              end in
  with_window
    (set_title (name +:+ " " +:+ en_dash +:+ " " +:+
                getHours s +:+ ":" +:+ getMinutes s +:+ ":" +:+ getSeconds s)
               (window s)) s.

(** [countDown()] *)
Definition countDown (s : t) : t :=
  let s := with_elapsedTime (state_time (state s)) s in
  let s := with_elapsedTime (elapsedTime s - 1) s in
  let s := if elapsedTime s <? 0 then with_elapsedTime 0 s else s in
  let s := with_state {| paused := paused (state s);
                         stopped := stopped (state s);
                         state_time := elapsedTime s |} s in
  updateTitle s.

(** [startTimer()] *)
Definition startTimer (s : t) : t :=
  let s := with_state {| paused := false; stopped := false;
                         state_time := state_time (state s) |} s in
  let '(h, w) := arm Interval 1000 (window s) in
  with_interval h (with_window w s).

(** [pauseTimer()] *)
Definition pauseTimer (s : t) : t :=
  let s := with_state {| paused := true; stopped := stopped (state s);
                         state_time := state_time (state s) |} s in
  with_window (clear (interval s) (window s)) s.

(** [stopTimer()] *)
Definition stopTimer (s : t) : t :=
  let s := with_state {| paused := paused (state s); stopped := true;
                         state_time := defaultTime s |} s in
  let s := with_window (clear (interval s) (window s)) s in
  with_window (set_title (domTitle s) (window s)) s.

(** The body of the interval armed by [startTimer]. *)
Definition tick (s : t) : t :=
  let s := countDown s in
  if state_time (state s) =? 0 then
    let '(_, w) := arm Timeout 160 (window s) in with_window w s
  else s.

(** [handleClick()] *)
Definition handleClick (s : t) : t :=
  if paused (state s) || stopped (state s) then startTimer s
  else pauseTimer s.

(** The class [mdf-timer--active] of [render()]. *)
Definition active (s : t) : bool :=
  negb (paused (state s)) && negb (stopped (state s)).

Inductive Phase : Type :=
| Stopped
| Running
| Paused.

Definition phase (s : t) : Phase :=
  if stopped (state s) then Stopped
  else if paused (state s) then Paused
  else Running.

(** *** The browser running the armed timers *)

(** An interval that fires is armed again one period later. *)
Definition rearm (h : nat) (w : Window) : Window :=
  set_timers
    (List.map (fun q => if Nat.eqb (handle q) h
                        then {| handle := handle q; due := due q + 1000;
                                what := what q |}
                        else q) (timers w)) w.

(** The timer under handle [h] fires, unless it was cleared meanwhile:
    an interval is armed again and its body runs; a timeout is spent and
    its body, [stopTimer], runs. *)
Definition fire (h : nat) (s : t) : t :=
  match List.find (fun q => Nat.eqb (handle q) h) (timers (window s)) with
  | None => s
  | Some q =>
      match what q with
      | Interval => tick (with_window (rearm h (window s)) s)
      | Timeout => stopTimer (with_window (clear h (window s)) s)
      end
  end.

Definition set_clock (c : Z) (w : Window) : Window :=
  {| document_title := document_title w; clock := c;
     next_handle := next_handle w; timers := timers w |}.

(** One millisecond passes: the timers due now fire, in the order in
    which they were armed. *)
Definition millisecond (s : t) : t :=
  let s := with_window (set_clock (clock (window s) + 1) (window s)) s in
  let due_now :=
    List.map handle
      (List.filter (fun q => due q =? clock (window s)) (timers (window s))) in
  fold_left (fun s h => fire h s) due_now s.

Fixpoint elapse (ms : nat) (s : t) : t :=
  match ms with
  | O => s
  | S n => elapse n (millisecond s)
  end.

(** What can happen to a mounted timer: a click on the play/pause
    button, a click on the stop button, time passing. *)
Inductive event : Type :=
| Click
| Stop
| Wait (ms : nat).

Definition step (s : t) (e : event) : t :=
  match e with
  | Click => handleClick s
  | Stop => stopTimer s
  | Wait ms => elapse ms s
  end.

Definition run (evs : list event) (s : t) : t := fold_left step evs s.

(** A window with the given title and clock in which no timer is armed;
    handles are positive. *)
Definition idle_window (ti : string) (now : Z) (h : nat) : Window :=
  {| document_title := ti; clock := now; next_handle := S h; timers := [] |}.

(** A timer freshly mounted in a window. *)
Definition mount (p : Props) (w : Window) : t :=
  componentDidMount (constructor p w).

End Timer.

(* ===================================================================== *)
(** ** The timers of one page ([Landing.showTimers])                       *)
(* ===================================================================== *)

Module Page.

(** The [Timer] components of the page.  [Landing.showTimers] makes one
    [Timer] for each record of [props.data], keyed by its id, so a timer
    stays mounted while its record is listed and a new one is constructed
    when a record appears; all of them live in the one window of the page.

    Each component is kept with the window as it sees it.  The document
    title, the clock and the next free handle are the page's and the same
    in every component; the armed timers kept with a component are those
    it armed itself, an armed callback being a closure of the component
    whose [startTimer] armed it. *)
Record t : Type := {
  title : string;
  now : Z;
  next : nat;
  mounted : list Timer.t
}.

(** The window of the page as a component sees it that has armed
    [own]. *)
Definition window_of (P : t) (own : list Timer.pending) : Timer.Window :=
  {| Timer.document_title := title P; Timer.clock := now P;
     Timer.next_handle := next P; Timer.timers := own |}.

(** A component sees what was done to the window [w]. *)
Definition sync (w : Timer.Window) (c : Timer.t) : Timer.t :=
  Timer.with_window
    {| Timer.document_title := Timer.document_title w;
       Timer.clock := Timer.clock w;
       Timer.next_handle := Timer.next_handle w;
       Timer.timers := Timer.timers (Timer.window c) |} c.

(** The page whose components are [l], after the window has become
    [w]. *)
Definition publish (w : Timer.Window) (l : list Timer.t) : t :=
  {| title := Timer.document_title w; now := Timer.clock w;
     next := Timer.next_handle w; mounted := sync w <$> l |}.

(** A handler or an armed callback [f] of the [i]-th component runs. *)
Definition act (f : Timer.t -> Timer.t) (i : nat) (P : t) : t :=
  match mounted P !! i with
  | Some c => let c' := f c in publish (Timer.window c') (<[i := c']> (mounted P))
  | None => P
  end.

(** A record appears in [props.data]: its [Timer] is constructed and
    mounted, and the constructor reads [document.title] as it is then. *)
Definition mount (p : Timer.Props) (P : t) : t :=
  {| title := title P; now := now P; next := next P;
     mounted := mounted P ++ [Timer.mount p (window_of P [])] |}.

(** [document.title = ti] *)
Definition write_title (ti : string) (P : t) : t :=
  publish (Timer.set_title ti (window_of P [])) (mounted P).

(** The armed timers of the [i]-th component that are due at [clk],
    each with the component it belongs to. *)
Definition due_of (clk : Z) (i : nat) (c : Timer.t) : list (nat * nat) :=
  List.map (fun q => (i, Timer.handle q))
           (List.filter (fun q => Timer.due q =? clk)
                        (Timer.timers (Timer.window c))).

(** Handles are handed out in the order of arming. *)
Fixpoint insert_due (x : nat * nat) (l : list (nat * nat)) : list (nat * nat) :=
  match l with
  | [] => [x]
  | y :: l' => if (snd x <=? snd y)%nat then x :: l else y :: insert_due x l'
  end.

Definition due_now (P : t) : list (nat * nat) :=
  fold_right insert_due [] (concat (imap (due_of (now P)) (mounted P))).

(** One millisecond passes: the timers due now fire, in the order in
    which they were armed, each in its component. *)
Definition millisecond (P : t) : t :=
  let P := publish (Timer.set_clock (now P + 1) (window_of P [])) (mounted P) in
  fold_left (fun P x => act (Timer.fire (snd x)) (fst x) P) (due_now P) P.

Fixpoint elapse (ms : nat) (P : t) : t :=
  match ms with
  | O => P
  | S n => elapse n (millisecond P)
  end.

(** What can happen on the page: a timer is mounted for a new record; the
    play/pause or the stop button of the [i]-th timer is clicked; time
    passes. *)
Inductive event : Type :=
| Mount (p : Timer.Props)
| Click (i : nat)
| Stop (i : nat)
| Wait (ms : nat).

Definition step (P : t) (e : event) : t :=
  match e with
  | Mount p => mount p P
  | Click i => act Timer.handleClick i P
  | Stop i => act Timer.stopTimer i P
  | Wait ms => elapse ms P
  end.

Definition run (evs : list event) (P : t) : t := fold_left step evs P.

(** A page with the given title and clock, no timer mounted, nothing
    armed; handles are positive. *)
Definition init (ti : string) (clk : Z) (h : nat) : t :=
  {| title := ti; now := clk; next := S h; mounted := [] |}.

End Page.

(* ===================================================================== *)
(** ** [App.getLandingData] and the promise job queue                     *)
(* ===================================================================== *)

Module App.

(** The promise jobs of one [getLandingData()] call.  An [async] method
    of [Storage] runs up to its [await Promise.resolve()] when called and
    finishes in a job of its own; each [then] callback is a job queued
    when the promise before it settles. *)
Inductive job : Type :=
| keys_resume                        (* [storage.keys()] after its await *)
| keys_then (keys : list string)     (* [keys => { ... }] *)
| get_resume (key : string)          (* [storage.get(key)] after its await *)
| push_then (data : option jsvalue)  (* [data => landingData.push(data)];
                                        [None]: the [get] was rejected *)
| setState_then (fulfilled : bool).  (* [() => setState({ landingData })] *)

(** The [App] instance with what it acts on.  [published] lists the
    [setState({ landingData: this.landingData })] calls made so far, each
    with the content the shared [landingData] array has at the call. *)
Record t : Type := {
  ls : gmap string string;
  landingData : list jsvalue;
  published : list (list jsvalue);
  jobs : list job
}.

(** [storage: Storage = new Storage('timer')] *)
Definition storage : Storage.t := Storage.new (Some "timer"%string).

(** [getLandingData()], up to its return: the array is reset and
    [storage.keys()] is called, which suspends at its await. *)
Definition getLandingData (a : t) : t :=
  {| ls := ls a; landingData := []; published := published a;
     jobs := jobs a ++ [keys_resume] |}.

Definition enqueue (js : list job) (a : t) : t :=
  {| ls := ls a; landingData := landingData a; published := published a;
     jobs := jobs a ++ js |}.

Definition setState (a : t) : t :=
  {| ls := ls a; landingData := landingData a;
     published := published a ++ [landingData a]; jobs := jobs a |}.

Definition push (data : jsvalue) (a : t) : t :=
  {| ls := ls a; landingData := landingData a ++ [data];
     published := published a; jobs := jobs a |}.

(** Run one job. *)
Definition perform (j : job) (a : t) : t :=
  match j with
  | keys_resume => enqueue [keys_then (Storage.keys storage (ls a))] a
  | keys_then keys =>
      match keys with
      | [] => setState a
      | _ => enqueue (List.map get_resume keys) a
      end
  | get_resume key => enqueue [push_then (Storage.get storage (ls a) key)] a
  | push_then (Some data) => enqueue [setState_then true] (push data a)
  | push_then None => enqueue [setState_then false] a
  | setState_then true => setState a
  | setState_then false => a
  end.

Definition pop (a : t) : option (job * t) :=
  match jobs a with
  | [] => None
  | j :: js =>
      Some (j, {| ls := ls a; landingData := landingData a;
                  published := published a; jobs := js |})
  end.

(** The job queue, first in first out, for at most [fuel] jobs. *)
Fixpoint drain (fuel : nat) (a : t) : t :=
  match fuel with
  | O => a
  | S n =>
      match pop a with
      | None => a
      | Some (j, a') => drain n (perform j a')
      end
  end.

(** An [App] over a given [localStorage], nothing published yet. *)
Definition init (l : gmap string string) : t :=
  {| ls := l; landingData := []; published := []; jobs := [] |}.

(** [refresh()]: one [getLandingData()] call and the jobs it causes. *)
Definition refresh (fuel : nat) (a : t) : t := drain fuel (getLandingData a).

End App.

(* ===================================================================== *)
(** ** The rest of the [Timer] file: what [render] shows, the [Input]      *)
(* ===================================================================== *)

Module TimerView.
Import Timer.

(** [playPauseLabel()] *)
Definition playPauseLabel (s : t) : string :=
  if paused (state s) || stopped (state s) then "Start timer" else "Pause timer".

(** [playPauseIcon()], the name of the icon used. *)
Definition playPauseIcon (s : t) : string :=
  if paused (state s) || stopped (state s) then "play" else "pause".

(** The text of the [role="timer"] element of [render()]. *)
Definition display (s : t) : string :=
  getHours s +:+ " : " +:+ getMinutes s +:+ " : " +:+ getSeconds s.

End TimerView.

Module Input.
Import JS.

(** [InputProps], the bounds. *)
Record Props : Type := { max : Z; min : Z }.

(** [numValue > max] and [numValue < min]: false when [numValue] is
    [NaN]. *)
Definition gt (x : number) (y : Z) : bool :=
  match x with
  | Num n => y <? n
  | _ => false
  end.

Definition lt (x : number) (y : Z) : bool :=
  match x with
  | Num n => n <? y
  | _ => false
  end.

(** [handleChange($event)]: gives the value the input element holds
    afterwards and the value handed to [props.onChange]. *)
Definition handleChange (p : Props) (value : string) : string * string :=
  let numValue := parseInt value in
  let input_value :=
    if gt numValue (max p) then Number_toString (max p)
    else if lt numValue (min p) then Number_toString (min p)
    else value in
  (input_value, value).

End Input.

(* ===================================================================== *)
(** ** The [Landing] slide (components/Landing/Landing.tsx)               *)
(* ===================================================================== *)

Module Landing.
Import JS.

(** [LandingState] *)
Record State : Type := {
  dialogActive : bool;
  dialogId : Z;
  dialogUseKeyboard : bool
}.

(** Calls made on the props of the slide. *)
Inductive call : Type :=
| onRefresh
| onMessage (message : string)
| onSlideChange (name : string).

(** The slide with what it acts on. *)
Record t : Type := {
  ls : gmap string string;
  state : State;
  calls : list call
}.

(** [storage = new Storage('timer')] *)
Definition storage : Storage.t := Storage.new (Some "timer"%string).

(** The slide as constructed:
    [{ dialogActive: false, dialogId: 0, dialogUseKeyboard: false }]. *)
Definition init (l : gmap string string) : t :=
  {| ls := l;
     state := {| dialogActive := false; dialogId := 0;
                 dialogUseKeyboard := false |};
     calls := [] |}.

(** [openDialog(id)] *)
Definition openDialog (i : Z) (a : t) : t :=
  {| ls := ls a;
     state := {| dialogActive := true; dialogId := i;
                 dialogUseKeyboard := false |};
     calls := calls a |}.

(** [openKbDialog($event, id)], [key] being [$event.key]. *)
Definition openKbDialog (key : string) (i : Z) (a : t) : t :=
  if String.eqb key "Enter" || String.eqb key " " then
    {| ls := ls a;
       state := {| dialogActive := true; dialogId := i;
                   dialogUseKeyboard := true |};
       calls := calls a |}
  else a.

(** [cancelDialog()] *)
Definition cancelDialog (a : t) : t :=
  {| ls := ls a;
     state := {| dialogActive := false; dialogId := dialogId (state a);
                 dialogUseKeyboard := dialogUseKeyboard (state a) |};
     calls := calls a |}.

(** [deleteTimer()], with the [then] callback of [storage.delete] run. *)
Definition deleteTimer (a : t) : t :=
  let a := {| ls := Storage.delete storage (ls a)
                      (Number_toString (dialogId (state a)));
              state := state a; calls := calls a |} in
  let a := cancelDialog a in
  {| ls := ls a; state := state a;
     calls := calls a ++ [onRefresh; onMessage "Timer successfully removed"] |}.

(** [showTimers()]: the props of the [Timer] made for each entry of
    [props.data], in order.  Reading [data.id] of a [null] entry throws;
    that is [None]. *)
Fixpoint showTimers (data : list jsvalue) : option (list (Z * Timer.Props)) :=
  match data with
  | [] => Some []
  | JNull :: _ => None
  | JTimer d :: rest =>
      match showTimers rest with
      | Some timers =>
          Some ((id d, {| Timer.props_time := time d;
                          Timer.props_title := Some (title d) |}) :: timers)
      | None => None
      end
  end.

End Landing.

(* ===================================================================== *)
(** ** helpers: [debounce], [hasScrollbar], [getScrollbarParent]          *)
(* ===================================================================== *)

Module Debounce.

Section WithArgs.

(** The arguments a debounced call is made with. *)
Variable A : Type.

(** An armed [setTimeout(() => func(...args), timeout)]. *)
Record pending : Type := { handle : nat; due : nat; args : A }.

(** The closure [debouncedFunc] with the browser timers it arms: [timer]
    is its variable ([None] while undefined), [called] lists the calls of
    [func] made so far with their arguments. *)
Record t : Type := {
  timer : option nat;
  clock : nat;
  next_handle : nat;
  timers : list pending;
  called : list A
}.

(** [debounce(func, timeout)] in a browser where nothing is armed;
    handles are positive. *)
Definition debounce (now h : nat) : t :=
  {| timer := None; clock := now; next_handle := S h; timers := [];
     called := [] |}.

(** [clearTimeout(h)] *)
Definition clearTimeout (h : nat) (s : t) : t :=
  {| timer := timer s; clock := clock s; next_handle := next_handle s;
     timers := List.filter (fun q => negb (Nat.eqb (handle q) h)) (timers s);
     called := called s |}.

(** [debouncedFunc(...args)]: [if (timer) clearTimeout(timer)], a handle
    being truthy unless it is 0; then
    [timer = setTimeout(() => func(...args), timeout)]. *)
Definition debouncedFunc (timeout : nat) (a : A) (s : t) : t :=
  let s := match timer s with
           | Some (S h) => clearTimeout (S h) s
           | _ => s
           end in
  {| timer := Some (next_handle s); clock := clock s;
     next_handle := S (next_handle s);
     timers := timers s ++ [{| handle := next_handle s;
                               due := clock s + timeout; args := a |}];
     called := called s |}.

(** A timeout that fires is spent, and [func] is called with its
    arguments. *)
Definition fire (q : pending) (s : t) : t :=
  if existsb (fun q' => Nat.eqb (handle q') (handle q)) (timers s) then
    {| timer := timer s; clock := clock s; next_handle := next_handle s;
       timers := List.filter (fun q' => negb (Nat.eqb (handle q') (handle q)))
                             (timers s);
       called := called s ++ [args q] |}
  else s.

(** One millisecond passes: the timeouts that are due fire, in the order
    in which they were armed. *)
Definition millisecond (s : t) : t :=
  let s := {| timer := timer s; clock := S (clock s);
              next_handle := next_handle s; timers := timers s;
              called := called s |} in
  fold_left (fun s q => fire q s)
            (List.filter (fun q => (due q <=? clock s)%nat) (timers s)) s.

Fixpoint elapse (ms : nat) (s : t) : t :=
  match ms with
  | O => s
  | S n => elapse n (millisecond s)
  end.

(** Calls of the debounced function, each made after a wait of so many
    milliseconds. *)
Fixpoint burst (timeout : nat) (l : list (nat * A)) (s : t) : t :=
  match l with
  | [] => s
  | (gap, a) :: l' => burst timeout l' (debouncedFunc timeout a (elapse gap s))
  end.

End WithArgs.

Arguments handle {A}.
Arguments due {A}.
Arguments args {A}.
Arguments timer {A}.
Arguments clock {A}.
Arguments next_handle {A}.
Arguments timers {A}.
Arguments called {A}.
Arguments debounce {A}.
Arguments debouncedFunc {A}.
Arguments elapse {A}.
Arguments burst {A}.
Arguments millisecond {A}.
Arguments fire {A}.
Arguments clearTimeout {A}.

End Debounce.

Module Scroll.

(** What the helpers read of an element: the computed [overflow-x] and
    [overflow-y], its scroll and client sizes, and the selectors it
    matches. *)
Record Element : Type := {
  overflow_x : string;
  overflow_y : string;
  scrollWidth : Z;
  clientWidth : Z;
  scrollHeight : Z;
  clientHeight : Z;
  matches : string -> bool
}.

(** An element with its chain of [parentElement]s: up to [document.body],
    or up to an element that has no parent. *)
Inductive node : Type :=
| Body (e : Element)
| Inner (e : Element) (parent : node)
| Detached (e : Element).

Definition element (n : node) : Element :=
  match n with
  | Body e => e
  | Inner e _ => e
  | Detached e => e
  end.

(** [hasScrollbar(elem, horizontal?)] *)
Definition hasScrollbar (elem : Element) (horizontal : bool) : bool :=
  if horizontal then
    String.eqb (overflow_x elem) "auto" && (clientWidth elem <? scrollWidth elem)
  else
    String.eqb (overflow_y elem) "auto" && (clientHeight elem <? scrollHeight elem).

(** [getScrollbarParent(elem)], as the recursive calls make it, without
    [ignoreElem].  [None] is the [TypeError] on the [null] parent of an
    element that is not under the body. *)
Fixpoint getScrollbarParent_rec (elem : node) : option node :=
  match elem with
  | Body _ => Some elem
  | Inner e parent =>
      if hasScrollbar e true || hasScrollbar e false then Some elem
      else getScrollbarParent_rec parent
  | Detached e =>
      if hasScrollbar e true || hasScrollbar e false then Some elem
      else None
  end.

(** [getScrollbarParent(elem, ignoreElem?)]: an [ignoreElem] that is
    missing or empty is falsy. *)
Definition getScrollbarParent (elem : node) (ignoreElem : option string)
  : option node :=
  match elem with
  | Body _ => Some elem
  | Inner e parent =>
      match ignoreElem with
      | Some (String c r) =>
          if matches e (String c r) then getScrollbarParent_rec parent
          else getScrollbarParent_rec elem
      | _ => getScrollbarParent_rec elem
      end
  | Detached e =>
      match ignoreElem with
      | Some (String c r) =>
          if matches e (String c r) then None
          else getScrollbarParent_rec elem
      | _ => getScrollbarParent_rec elem
      end
  end.

(** The chain from a node upwards, the node first. *)
Fixpoint chain (n : node) : list node :=
  match n with
  | Inner _ parent => n :: chain parent
  | _ => [n]
  end.

Definition is_body (n : node) : bool :=
  match n with
  | Body _ => true
  | _ => false
  end.

(** The chain of the node ends in [document.body]. *)
Fixpoint attached (n : node) : bool :=
  match n with
  | Body _ => true
  | Inner _ parent => attached parent
  | Detached _ => false
  end.

Definition scrolls (n : node) : bool :=
  hasScrollbar (element n) true || hasScrollbar (element n) false.

End Scroll.

(* ===================================================================== *)
(** ** src/preferences.manager.ts and the theme toggle                    *)
(* ===================================================================== *)

Module PreferencesManager.

(** The fields set from [localStorage] by the constructor; [None] is
    [null]. *)
Record t : Type := {
  accent : option string;
  gradient : option string;
  theme : option string
}.

(** [get(setting)] *)
Definition get (l : gmap string string) (setting : string) : option string :=
  l !! ("app-" +:+ setting).

(** [set(setting, value)] *)
Definition set (l : gmap string string) (setting value : string)
  : gmap string string :=
  <["app-" +:+ setting := value]> l.

(** A string or [null], as a condition. *)
Definition truthy (v : option string) : bool :=
  match v with
  | Some (String _ _) => true
  | _ => false
  end.

(** [setDefaults()] *)
Definition setDefaults (m : t) (l : gmap string string) : gmap string string :=
  let l := if truthy (accent m) then l else set l "accent" "teal" in
  let l := if truthy (gradient m) then l else set l "gradient" "KyeMeh" in
  if truthy (theme m) then l else set l "theme" "light".

(** [new PreferencesManager()]: the fields are read first, the defaults
    saved after. *)
Definition new (l : gmap string string) : t * gmap string string :=
  let m := {| accent := get l "accent"; gradient := get l "gradient";
              theme := get l "theme" |} in
  (m, setDefaults m l).

(** [classList.add(c)] *)
Definition classList_add (c : string) (classes : list string) : list string :=
  if existsb (String.eqb c) classes then classes else classes ++ [c].

(** [classList.remove(c)] *)
Definition classList_remove (c : string) (classes : list string) : list string :=
  List.filter (fun c' => negb (String.eqb c c')) classes.

(** In a template literal [null] reads as the text [null]. *)
Definition text (v : option string) : string :=
  match v with
  | Some s => s
  | None => "null"
  end.

(** The class lists [applyPreferences] acts on: that of the element
    [.mdf-app], when there is one, and that of the body. *)
Record Dom : Type := {
  appContainer : option (list string);
  body : list string
}.

(** [applyPreferences()] *)
Definition applyPreferences (m : t) (l : gmap string string) (d : Dom) : Dom :=
  let app :=
    match appContainer d with
    | Some classes =>
        Some (classList_add
                ("mdf-gradient-" +:+
                 text (if truthy (gradient m) then gradient m
                       else get l "gradient")) classes)
    | None => None
    end in
  let b :=
    classList_add
      ("mdf-accent-" +:+
       text (if truthy (accent m) then accent m else get l "accent"))
      (body d) in
  let b :=
    match theme m with
    | Some th => if String.eqb th "dark" then classList_add "mdf-theme-dark" b else b
    | None => b
    end in
  {| appContainer := app; body := b |}.

(** [Preferences.toggleTheme($event)], on [localStorage] and the class
    list of the body. *)
Definition toggleTheme (l : gmap string string) (b : list string)
  : gmap string string * list string :=
  let theme := get l "theme" in
  if match theme with
     | Some th => String.eqb th "light"      (* [theme === 'light'] *)
     | None => false
     end
  then (set l "theme" "dark", classList_add "mdf-theme-dark" b)
  else (set l "theme" "light", classList_remove "mdf-theme-dark" b).

End PreferencesManager.

(* ===================================================================== *)
(** ** Vocabulary of the properties                                       *)
(* ===================================================================== *)

(** [Number.MAX_SAFE_INTEGER]: up to 53 bits an integer is a JavaScript
    number exactly, and prints as its decimal digits. *)
Definition safe_integer (n : Z) : Prop := Z.abs n <= 2 ^ 53 - 1.

(** The total duration [saveTimer] computes from the form. *)
Definition total_of (f : Add.form) : JS.number :=
  Add.calcTime (Add.parseInt_value (Add.hours_value f))
               (Add.parseInt_value (Add.minutes_value f))
               (Add.parseInt_value (Add.seconds_value f)).

(** A total that is not a number, or not above zero. *)
Definition invalid (total : JS.number) : Prop :=
  JS.isNaN total = true \/ exists n, total = JS.Num n /\ n <= 0.

(** Every character of [s] satisfies [p]. *)
Fixpoint all (p : ascii -> bool) (s : string) : bool :=
  match s with
  | EmptyString => true
  | String c s' => p c && all p s'
  end.

Section TimerVocabulary.
Import Timer.

(** What holds of every armed timer: its handle has been handed out; an
    interval is the one in [this.interval] and the timer is then running;
    a timeout has another handle than [this.interval]. *)
Definition armed_ok (s : t) (q : pending) : Prop :=
  (handle q < next_handle (window s))%nat /\
  match what q with
  | Interval => handle q = interval s /\ active s = true
  | Timeout => handle q <> interval s
  end.

(** The invariant of a timer mounted with props [p] in a window titled
    [ti]. *)
Record Inv (p : Props) (ti : string) (s : t) : Prop := {
  inv_props : props s = p;
  inv_default : defaultTime s = props_time p;
  inv_dom : domTitle s = ti;
  inv_interval : (interval s < next_handle (window s))%nat;
  inv_timers : Forall (armed_ok s) (timers (window s));
  inv_stopped :
    stopped (state s) = true -> state_time (state s) = defaultTime s
}.

End TimerVocabulary.

(** The armed timer is a timeout, a grace-delay stop. *)
Definition is_timeout (q : Timer.pending) : bool :=
  match Timer.what q with
  | Timer.Timeout => true
  | Timer.Interval => false
  end.

(** What C2 asks of a running timer: after [pauseTimer] and after
    [stopTimer] none of its callbacks is armed any more, neither the tick
    nor a grace-delay stop. *)
Definition cancels_every_callback : Prop :=
  forall (p : Timer.Props) (ti : string) (now : Z) (h : nat)
         (evs : list Timer.event),
    let s := Timer.run evs (Timer.mount p (Timer.idle_window ti now h)) in
    Timer.phase s = Timer.Running ->
    Timer.timers (Timer.window (Timer.pauseTimer s)) = []
    /\ Timer.timers (Timer.window (Timer.stopTimer s)) = [].

(** A one-second timer, started, 50 ms after the tick that took it to 0:
    the grace-delay stop is armed for 1160. *)
Definition in_grace_window : Timer.t :=
  Timer.run [Timer.Click; Timer.Wait 1000; Timer.Wait 50]
    (Timer.mount {| Timer.props_time := 1; Timer.props_title := Some "Tea"%string |}
                 (Timer.idle_window "Timers" 0 0)).

(** The values of the fetches that were fulfilled, in order. *)
Fixpoint values (rs : list (option jsvalue)) : list jsvalue :=
  match rs with
  | [] => []
  | Some v :: rs' => v :: values rs'
  | None :: rs' => values rs'
  end.

Definition is_fulfilled (r : option jsvalue) : bool :=
  match r with
  | Some _ => true
  | None => false
  end.

Fixpoint count_true (bs : list bool) : nat :=
  match bs with
  | [] => 0
  | true :: bs' => S (count_true bs')
  | false :: bs' => count_true bs'
  end.

(** The timer store with two records in it, next to a preference. *)
Definition two_timers : gmap string string :=
  Storage.set App.storage
    (Storage.set App.storage (<["app-theme"%string := "light"%string]> ∅)
       "17" (JTimer (mkTimerData 17 300 "Tea")))
    "18" (JTimer (mkTimerData 18 240 "Egg")).

(** What C1 asks: whatever the store holds, one [getLandingData()] call
    publishes once. *)
Definition publishes_exactly_once : Prop :=
  forall (l : gmap string string) (n : nat),
    length (App.published
              (App.refresh (3 * length (Storage.keys App.storage l) + 2 + n)
                           (App.init l))) = 1%nat.

(** The slot of the timer with id [i]. *)
Definition slot_of (i : Z) : string := "timer-" +:+ JS.Number_toString i.

(** Every listed slot that holds a timer record holds the record whose id
    names the slot. *)
Definition well_keyed (l : gmap string string) : Prop :=
  forall (k : string) (v : TimerData),
    In k (Storage.keys App.storage l) ->
    Storage.get App.storage l k = Some (JTimer v) ->
    k = slot_of (id v).

(** The records a refresh of the store [l] fetches. *)
Definition fetched_from (l : gmap string string) : list jsvalue :=
  values (List.map (Storage.get App.storage l) (Storage.keys App.storage l)).

(** The armed timer is the interval, the tick. *)
Definition is_interval (q : Timer.pending) : bool := negb (is_timeout q).

(** A timer mounted with props [p] under the title [ti] that is running
    with [r] seconds left at time [c], its tick armed for one second
    later and nothing else armed. *)
Definition ticking (p : Timer.Props) (ti : string) (r c : Z) (s : Timer.t) : Prop :=
  Inv p ti s
  /\ Timer.state s = {| Timer.paused := false; Timer.stopped := false;
                        Timer.state_time := r |}
  /\ Timer.clock (Timer.window s) = c
  /\ Timer.timers (Timer.window s) =
       [{| Timer.handle := Timer.interval s; Timer.due := c + 1000;
           Timer.what := Timer.Interval |}].

(** Nothing has been called by the debounced function, and either no
    call of it was made yet or the last one, with arguments [a], has its
    timeout armed for [d] and [timer] holds its handle. *)
Definition waiting {A : Type} (last : option (A * nat)) (s : Debounce.t A) : Prop :=
  Debounce.called s = []
  /\ (exists m, Debounce.next_handle s = S m)
  /\ match last with
     | None => Debounce.timer s = None /\ Debounce.timers s = []
     | Some (a, d) =>
         exists h, Debounce.timer s = Some (S h)
                   /\ Debounce.timers s =
                        [{| Debounce.handle := S h; Debounce.due := d;
                            Debounce.args := a |}]
     end.

(** The starting element is passed over because it matches [ignoreElem]. *)
Definition skipped (elem : Scroll.node) (ignoreElem : option string) : bool :=
  match ignoreElem with
  | Some (String c r) => Scroll.matches (Scroll.element elem) (String c r)
  | _ => false
  end.

(** What a setting reads as once the constructor has saved its defaults:
    the value it had, unless that was missing or empty. *)
Definition kept (v : option string) (default : string) : option string :=
  if PreferencesManager.truthy v then v else Some default.

(** The slot is one of the three settings of the preferences. *)
Definition is_setting (k : string) : Prop :=
  k = "app-accent"%string \/ k = "app-gradient"%string \/ k = "app-theme"%string.





(** Every component sees the window of the page. *)
Definition synced (P : Page.t) : Prop :=
  Forall (fun c => Timer.document_title (Timer.window c) = Page.title P
                   /\ Timer.clock (Timer.window c) = Page.now P
                   /\ Timer.next_handle (Timer.window c) = Page.next P)
         (Page.mounted P).

(** The invariant of a page: its components, mounted with the props and
    in windows with the titles that [specs] lists, satisfy the invariant
    of a timer each and see the same window. *)
Definition Good (specs : list (Timer.Props * string)) (P : Page.t) : Prop :=
  (0 < Page.next P)%nat
  /\ synced P
  /\ Forall2 (fun sp c => Inv (fst sp) (snd sp) c) specs (Page.mounted P).

(** Two timers of the page. *)
Definition tea : Timer.Props :=
  {| Timer.props_time := 10; Timer.props_title := Some "Tea"%string |}.

Definition egg : Timer.Props :=
  {| Timer.props_time := 5; Timer.props_title := Some "Egg"%string |}.

(** Tea is started; a second later its countdown is in the title, and a
    record for Egg appears, whose timer is mounted. *)
Definition egg_added_while_tea_counts : Page.t :=
  Page.run [Page.Mount tea; Page.Click 0; Page.Wait 1100; Page.Mount egg]
           (Page.init "Timers" 0 0).

(** Egg was started and stopped; then Tea is started and counts. *)
Definition tea_counts_after_egg_stopped : Page.t :=
  Page.run [Page.Mount tea; Page.Mount egg; Page.Click 1; Page.Wait 1500;
            Page.Stop 1; Page.Click 0; Page.Wait 1000]
           (Page.init "Timers" 0 0).

(** The armed timers are listed in the order of their handles, which is
    the order in which they were armed. *)
Definition in_order (l : list Timer.pending) : Prop :=
  StronglySorted (fun q q' => (Timer.handle q < Timer.handle q')%nat) l.

(** The page on which [s] is the one timer mounted. *)
Definition page_of (s : Timer.t) : Page.t :=
  {| Page.title := Timer.document_title (Timer.window s);
     Page.now := Timer.clock (Timer.window s);
     Page.next := Timer.next_handle (Timer.window s);
     Page.mounted := [s] |}.

(** An event of a timer, as an event of the page on which it is the
    first. *)
Definition on_page (e : Timer.event) : Page.event :=
  match e with
  | Timer.Click => Page.Click 0
  | Timer.Stop => Page.Stop 0
  | Timer.Wait ms => Page.Wait ms
  end.

(* ===================================================================== *)
(** * Properties                                                           *)
(* ===================================================================== *)

(** ** Strings *)

Section StringFacts.

Lemma startsWith_app (p r : string) : JS.startsWith (p +:+ r) p = true.
Proof.
  induction p as [|c p IH]; simpl; [reflexivity|].
  rewrite Ascii.eqb_refl. exact IH.
Qed.

Lemma includes_empty (s : string) : JS.includes s EmptyString = true.
Proof. destruct s; reflexivity. Qed.

Lemma includes_app (p r : string) : JS.includes (p +:+ r) p = true.
Proof.
  destruct p as [|c p]; [apply includes_empty|].
  change (JS.startsWith (String c p +:+ r) (String c p) || JS.includes (p +:+ r) (String c p) = true).
  rewrite startsWith_app. reflexivity.
Qed.

End StringFacts.

(** ** The store *)

Section StorageFacts.

Variable st : Storage.t.

Lemma prefixed_includes (k : string) :
  JS.includes (Storage.prefixed st k) (Storage.prefix st) = true.
Proof.
  unfold Storage.prefixed.
  destruct (JS.includes k (Storage.prefix st)) eqn:E; [exact E|].
  destruct (Storage.prefix st) as [|c p] eqn:P.
  - rewrite includes_empty in E. discriminate.
  - apply includes_app.
Qed.

Lemma prefixed_fixed (k : string) :
  JS.includes k (Storage.prefix st) = true -> Storage.prefixed st k = k.
Proof. intros H. unfold Storage.prefixed. rewrite H. reflexivity. Qed.

Lemma prefixed_prefixed (k : string) :
  Storage.prefixed st (Storage.prefixed st k) = Storage.prefixed st k.
Proof. apply prefixed_fixed, prefixed_includes. Qed.

Lemma keys_includes (l : gmap string string) (k : string) :
  In k (Storage.keys st l) -> JS.includes k (Storage.prefix st) = true.
Proof.
  unfold Storage.keys. destruct (Storage.prefix st) as [|c p].
  - intros _. apply includes_empty.
  - intros H. apply filter_In in H. apply H.
Qed.

Lemma Object_keys_spec (l : gmap string string) (k : string) :
  In k (Storage.Object_keys l) <-> is_Some (l !! k).
Proof.
  unfold Storage.Object_keys. rewrite <- list_elem_of_In, list_elem_of_fmap. split.
  - intros [[k' v] [-> H]]. apply elem_of_map_to_list in H. eauto.
  - intros [v H]. exists (k, v). split; [reflexivity|].
    apply elem_of_map_to_list. exact H.
Qed.

Lemma keys_spec (l : gmap string string) (k : string) :
  In k (Storage.keys st l) <->
  is_Some (l !! k) /\ JS.includes k (Storage.prefix st) = true.
Proof.
  split.
  - intros H. split; [|eapply keys_includes; eassumption].
    unfold Storage.keys in H. destruct (Storage.prefix st).
    + apply Object_keys_spec, H.
    + apply filter_In in H. apply Object_keys_spec, H.
  - intros [H1 H2]. unfold Storage.keys.
    destruct (Storage.prefix st) eqn:P.
    + apply Object_keys_spec, H1.
    + apply filter_In. split; [apply Object_keys_spec, H1|exact H2].
Qed.

End StorageFacts.

(** C10.  [Storage.prefixed] is idempotent, since a key that contains the
    prefix comes back unchanged.  Hence every key listed by [keys()] is its
    own prefixed form; and after [set(k, v)] the prefixed key is among
    [keys()], and [get] and [delete] called with it address the slot that
    [k] addresses. *)
Theorem prefixed_idempotent :
  forall (st : Storage.t),
    (forall k, Storage.prefixed st (Storage.prefixed st k) = Storage.prefixed st k)
    /\ (forall l k', In k' (Storage.keys st l) -> Storage.prefixed st k' = k')
    /\ (forall l k v,
          let l' := Storage.set st l k v in
          let k' := Storage.prefixed st k in
          In k' (Storage.keys st l')
          /\ Storage.get st l' k' = Storage.get st l' k
          /\ Storage.delete st l' k' = Storage.delete st l' k).
Proof.
  intros st. split; [|split].
  - apply prefixed_prefixed.
  - intros l k' H. apply prefixed_fixed. eapply keys_includes; eassumption.
  - intros l k v l' k'. subst l' k'. split; [|split].
    + apply keys_spec. split; [|apply prefixed_includes].
      unfold Storage.set. rewrite lookup_insert_eq. eauto.
    + unfold Storage.get. rewrite prefixed_prefixed. reflexivity.
    + unfold Storage.delete. rewrite prefixed_prefixed. reflexivity.
Qed.

(** ** JSON: what [parse] reads back from [stringify] *)

Section JSONFacts.
Import JS JSON.

Lemma append_assoc (a b c : string) : (a +:+ b) +:+ c = a +:+ (b +:+ c).
Proof.
  induction a as [|x a IH]; [reflexivity|].
  change (String x ((a +:+ b) +:+ c) = String x (a +:+ (b +:+ c))).
  rewrite IH. reflexivity.
Qed.

Lemma strip_app (p r : string) : strip p (p +:+ r) = Some r.
Proof.
  induction p as [|c p IH]; simpl; [reflexivity|].
  rewrite Ascii.eqb_refl. exact IH.
Qed.

Lemma span_app (p : ascii -> bool) (a : string) (c : ascii) (r : string) :
  all p a = true -> p c = false ->
  span p (a +:+ String c r) = (a, String c r).
Proof.
  intros Ha Hc. induction a as [|x a IH].
  - change (span p (String c r) = (EmptyString, String c r)).
    simpl. rewrite Hc. reflexivity.
  - change (span p (String x (a +:+ String c r)) = (String x a, String c r)).
    simpl in *. apply andb_prop in Ha as [Hx Ha]. rewrite Hx, (IH Ha). reflexivity.
Qed.

Lemma all_num_uint (d : Decimal.uint) :
  all is_num_char (NilEmpty.string_of_uint d) = true.
Proof. induction d; simpl; auto. Qed.

Lemma all_num_toString (n : Z) : all is_num_char (Number_toString n) = true.
Proof.
  unfold Number_toString. destruct (Z.to_int n); simpl; apply all_num_uint.
Qed.

Lemma parse_number_toString (n : Z) : parse_number (Number_toString n) = Some n.
Proof.
  unfold parse_number. unfold Number_toString at 1.
  rewrite NilEmpty.isi, DecimalZ.of_to, String.eqb_refl. reflexivity.
Qed.

Lemma read_number_toString (n : Z) (c : ascii) (r : string) :
  is_num_char c = false ->
  read_number (Number_toString n +:+ String c r) = Some (n, String c r).
Proof.
  intros Hc. unfold read_number.
  rewrite (span_app _ _ _ _ (all_num_toString n) Hc), parse_number_toString.
  reflexivity.
Qed.

Lemma read_string_escape_char (c : ascii) (s : string) :
  read_string (escape_char c +:+ s) = push c (read_string s).
Proof.
  destruct c as [[|] [|] [|] [|] [|] [|] [|] [|]]; reflexivity.
Qed.

Lemma read_string_escape (t r : string) :
  read_string (escape t +:+ String dq r) = Some (t, r).
Proof.
  induction t as [|c t IH]; [reflexivity|].
  change (escape (String c t)) with (escape_char c +:+ escape t).
  rewrite append_assoc, read_string_escape_char, IH. reflexivity.
Qed.

Lemma strip_eq (p r s : string) : s = p +:+ r -> strip p s = Some r.
Proof. intros ->. apply strip_app. Qed.

Lemma parse_timer_stringify (d : TimerData) :
  parse_timer (stringify_timer d) = Some d.
Proof.
  destruct d as [i t ti]. unfold stringify_timer, parse_timer.
  cbn [id time title].
  pose proof (fun r => read_number_toString i ","%char r eq_refl) as Hi.
  pose proof (fun r => read_number_toString t ","%char r eq_refl) as Ht.
  revert Hi Ht.
  generalize (Number_toString i) (Number_toString t). intros si st Hi Ht.
  erewrite strip_eq by reflexivity. rewrite Hi.
  erewrite strip_eq by reflexivity. rewrite Ht.
  erewrite strip_eq by (unfold quote at 3; reflexivity).
  fold String.append.
  rewrite append_assoc.
  change (String dq EmptyString +:+ String "}" EmptyString)
    with (String dq (String "}" EmptyString)).
  rewrite read_string_escape, String.eqb_refl. reflexivity.
Qed.

Lemma parse_stringify (v : jsvalue) : parse (stringify v) = Some v.
Proof.
  destruct v as [|d]; [reflexivity|].
  unfold parse, stringify. rewrite parse_timer_stringify.
  unfold stringify_timer. reflexivity.
Qed.

End JSONFacts.

(** C8.  Round trip through the store: a timer record written with
    [set(k, v)] and read with [get(k)], same key and same prefix, comes
    back equal to [v], its numeric fields being safe integers. *)
Theorem set_get_roundtrip :
  forall (st : Storage.t) (l : gmap string string) (k : string) (v : TimerData),
    safe_integer (id v) -> safe_integer (time v) ->
    Storage.get st (Storage.set st l k (JTimer v)) k = Some (JTimer v).
Proof.
  intros st l k v _ _. unfold Storage.get, Storage.set.
  rewrite lookup_insert_eq. apply parse_stringify.
Qed.

(** The round trip at a record whose id takes 51 bits. *)
Lemma set_get_roundtrip_witness :
  let st := Storage.new (Some "timer"%string) in
  let v := mkTimerData 1700004294967295 300 "Tea" in
  safe_integer (id v) /\ safe_integer (time v) /\
  Storage.get st (Storage.set st ∅ "1700004294967295" (JTimer v))
              "1700004294967295" = Some (JTimer v).
Proof.
  intros st v.
  assert (Hi : safe_integer (id v)) by (unfold safe_integer; simpl; lia).
  assert (Ht : safe_integer (time v)) by (unfold safe_integer; simpl; lia).
  split; [exact Hi|]. split; [exact Ht|].
  exact (set_get_roundtrip st ∅ "1700004294967295" v Hi Ht).
Defined.

(** ** The [Add] slide *)

Section AddFacts.
Import JS Add.

Lemma calcTime_value (h m s : number) :
  calcTime h m s =
  Num (number_value h * 3600 + number_value m * 60 + number_value s).
Proof.
  unfold calcTime.
  destruct h as [| |h], m as [| |m], s as [| |s]; simpl;
    repeat match goal with
           | |- context [?n =? 0] => destruct (Z.eqb_spec n 0); subst; simpl
           end;
    f_equal; lia.
Qed.

Lemma guard_spec (total : number) :
  guard total = false <->
  (isNaN total = true \/ exists n, total = Num n /\ n <= 0).
Proof.
  unfold guard. destruct total as [| |n]; simpl.
  - split; auto.
  - split; auto.
  - destruct (Z.ltb_spec 0 n); split; try discriminate; auto.
    + intros [H'|[n' [[= <-] H']]]; [discriminate|lia].
    + intros _. right. exists n. split; [reflexivity|lia].
Qed.

End AddFacts.

(** C4.  The total duration is [h * 3600 + m * 60 + s], a missing
    component ([undefined] or [NaN]) counting as 0; in particular for all
    non-negative [h], [m], [s]. *)
Theorem calcTime_total :
  forall h m s : JS.number,
    Add.calcTime h m s =
    JS.Num (Add.number_value h * 3600 + Add.number_value m * 60
            + Add.number_value s).
Proof. exact calcTime_value. Qed.

(** C5.  [saveTimer] rejects the form exactly when the total is not a
    number or is at most 0, as for 0 hours, 0 minutes, 0 seconds: it then
    leaves [localStorage] as it is, calls nothing, and raises the inline
    [error] state.  Otherwise it writes the record under its id. *)
Theorem saveTimer_validation :
  forall (f : Add.form) (uuid now : Z) (a : Add.t),
    (invalid (total_of f) ->
       Add.saveTimer f uuid now a =
       {| Add.ls := Add.ls a; Add.error := true; Add.calls := Add.calls a |})
    /\ (~ invalid (total_of f) ->
       exists v,
         Add.ls (Add.saveTimer f uuid now a) =
           Storage.set Add.storage (Add.ls a)
                       (JS.Number_toString (Add.generateUUID uuid now)) (JTimer v)
         /\ JS.Num (time v) = total_of f /\ 0 < time v
         /\ Add.error (Add.saveTimer f uuid now a) = Add.error a)
    /\ invalid (Add.calcTime (JS.Num 0) (JS.Num 0) (JS.Num 0)).
Proof.
  intros f uuid now a. fold (invalid (total_of f)).
  split; [|split].
  - intros H. apply guard_spec in H. unfold Add.saveTimer.
    fold (total_of f). rewrite H. reflexivity.
  - intros H. unfold Add.saveTimer. fold (total_of f).
    destruct (Add.guard (total_of f)) eqn:G.
    + eexists. split; [reflexivity|]. cbn [time Add.error].
      unfold Add.guard in G. destruct (total_of f) as [| |n]; try discriminate.
      simpl in *. split; [reflexivity|]. split; [lia|reflexivity].
    + apply guard_spec in G. contradiction.
  - right. exists 0. split; [reflexivity|lia].
Qed.

(* ===================================================================== *)
(** * [calcTime] on binary64 numbers                                       *)
(* ===================================================================== *)

Section DoubleFacts.
Import SpecFloat.














End DoubleFacts.




(** ** The timer runtime *)

Section TimerFacts.
Import Timer.

Variable p : Props.
Variable ti : string.

Lemma Inv_mount (now : Z) (h : nat) : Inv p ti (mount p (idle_window ti now h)).
Proof.
  constructor; simpl; try reflexivity.
  - lia.
  - constructor.
Qed.

Lemma idle_when_inactive (s : t) :
  Inv p ti s -> active s = false ->
  Forall (fun q => what q = Timeout) (timers (window s)).
Proof.
  intros I Ha. eapply Forall_impl; [apply (inv_timers _ _ _ I)|].
  intros q [_ Hq]. destruct (what q); [|reflexivity].
  destruct Hq as [_ Hq]. congruence.
Qed.

(** [clearInterval(this.interval)] removes the interval and nothing
    else. *)
Lemma clear_interval (s : t) :
  Inv p ti s ->
  timers (clear (interval s) (window s)) =
  List.filter is_timeout (timers (window s)).
Proof.
  intros I. unfold clear. simpl. apply filter_ext_in_iff.
  intros q Hq. pose proof (inv_timers _ _ _ I) as F.
  rewrite Forall_forall in F. destruct (F q) as [_ Hk].
  { apply list_elem_of_In. exact Hq. }
  unfold is_timeout. destruct (what q).
  - destruct Hk as [-> _]. rewrite Nat.eqb_refl. reflexivity.
  - apply Nat.eqb_neq in Hk. rewrite Hk. reflexivity.
Qed.

(** The timers left by [clearInterval(this.interval)] are timeouts, and
    they satisfy [armed_ok] whatever the flags have become. *)
Ltac survivors F :=
  apply Forall_forall; intros q Hq; apply list_elem_of_In, filter_In in Hq;
  destruct Hq as [Hq Hne]; rewrite Forall_forall in F;
  destruct (F q) as [Hlt Hk]; [apply list_elem_of_In; exact Hq|];
  split; [exact Hlt|]; simpl; destruct (what q);
  [ destruct Hk as [E _]; rewrite E, Nat.eqb_refl in Hne; discriminate
  | exact Hk ].

Lemma Inv_stopTimer (s : t) : Inv p ti s -> Inv p ti (stopTimer s).
Proof.
  intros [I1 I2 I3 I4 I5 I6].
  constructor; simpl; auto. survivors I5.
Qed.

Lemma Inv_pauseTimer (s : t) : Inv p ti s -> Inv p ti (pauseTimer s).
Proof.
  intros [I1 I2 I3 I4 I5 I6].
  constructor; simpl; auto. survivors I5.
Qed.

Lemma Inv_startTimer (s : t) :
  Inv p ti s -> active s = false -> Inv p ti (startTimer s).
Proof.
  intros I Ha. pose proof (idle_when_inactive s I Ha) as T.
  destruct I as [I1 I2 I3 I4 I5 I6].
  constructor; simpl; auto; try discriminate.
  apply Forall_app. split.
  - rewrite Forall_forall in *. intros q Hq.
    destruct (I5 q Hq) as [Hlt _]. split; simpl; [lia|].
    rewrite (T q Hq). lia.
  - constructor; [|constructor]. split; simpl; [lia|]. split; reflexivity.
Qed.

Lemma Inv_handleClick (s : t) : Inv p ti s -> Inv p ti (handleClick s).
Proof.
  intros I. unfold handleClick.
  destruct (paused (state s) || stopped (state s)) eqn:E.
  - apply Inv_startTimer; [exact I|].
    unfold active. destruct (paused (state s)), (stopped (state s));
      simpl in *; congruence.
  - apply Inv_pauseTimer, I.
Qed.

Lemma Inv_clear (h : nat) (s : t) :
  Inv p ti s -> Inv p ti (with_window (clear h (window s)) s).
Proof.
  intros [I1 I2 I3 I4 I5 I6].
  constructor; simpl; auto.
  apply Forall_forall. intros q Hq. apply list_elem_of_In, filter_In in Hq.
  destruct Hq as [Hq _]. rewrite Forall_forall in I5.
  apply (I5 q). apply list_elem_of_In. exact Hq.
Qed.

Lemma Inv_rearm (h : nat) (s : t) :
  Inv p ti s -> Inv p ti (with_window (rearm h (window s)) s).
Proof.
  intros [I1 I2 I3 I4 I5 I6].
  constructor; simpl; auto.
  apply Forall_forall. intros q Hq. apply list_elem_of_In, in_map_iff in Hq.
  destruct Hq as [q' [Hq' Hin]]. rewrite Forall_forall in I5.
  specialize (I5 q' (proj2 (list_elem_of_In _ _) Hin)).
  destruct (handle q' =? h)%nat; subst q; exact I5.
Qed.

(** [countDown] in one step: the time left goes down by one, not
    below 0, and the title is written. *)
Lemma countDown_eq (s : t) :
  let r := Z.max (state_time (state s) - 1) 0 in
  countDown s =
  updateTitle
    (with_state {| paused := paused (state s); stopped := stopped (state s);
                   state_time := r |} (with_elapsedTime r s)).
Proof.
  unfold countDown. simpl.
  destruct (Z.ltb_spec (state_time (state s) - 1) 0) as [H|H]; simpl.
  - rewrite Z.max_r by lia. reflexivity.
  - rewrite Z.max_l by lia. reflexivity.
Qed.

Lemma Inv_countDown (s : t) :
  Inv p ti s -> stopped (state s) = false -> Inv p ti (countDown s).
Proof.
  intros [I1 I2 I3 I4 I5 I6] Hs. rewrite countDown_eq.
  constructor; simpl; auto; intros; congruence.
Qed.

Lemma Inv_arm_Timeout (ms : Z) (s : t) :
  Inv p ti s -> Inv p ti (with_window (snd (arm Timeout ms (window s))) s).
Proof.
  intros [I1 I2 I3 I4 I5 I6].
  constructor; simpl; auto.
  apply Forall_app. split.
  - rewrite Forall_forall in *. intros q Hq.
    destruct (I5 q Hq) as [Hlt Hk]. split; simpl; [lia|exact Hk].
  - constructor; [|constructor]. split; simpl; lia.
Qed.

Lemma Inv_tick (s : t) :
  Inv p ti s -> stopped (state s) = false -> Inv p ti (tick s).
Proof.
  intros I Hs. pose proof (Inv_countDown s I Hs) as I'.
  unfold tick. destruct (state_time (state (countDown s)) =? 0); [|exact I'].
  apply (Inv_arm_Timeout 160 (countDown s) I').
Qed.

Lemma Inv_fire (h : nat) (s : t) : Inv p ti s -> Inv p ti (fire h s).
Proof.
  intros I. unfold fire.
  destruct (find _ _) as [q|] eqn:F; [|exact I].
  apply find_some in F. destruct F as [Hin _].
  pose proof (inv_timers _ _ _ I) as T. rewrite Forall_forall in T.
  destruct (T q (proj2 (list_elem_of_In _ _) Hin)) as [_ Hk].
  destruct (what q).
  - destruct Hk as [_ Ha]. apply Inv_tick.
    + apply Inv_rearm, I.
    + simpl. unfold active in Ha. destruct (stopped (state s));
        [rewrite andb_false_r in Ha; discriminate|reflexivity].
  - apply Inv_stopTimer, Inv_clear, I.
Qed.

Lemma Inv_fires (hs : list nat) (s : t) :
  Inv p ti s -> Inv p ti (fold_left (fun s h => fire h s) hs s).
Proof.
  revert s. induction hs as [|h hs IH]; intros s I; simpl; [exact I|].
  apply IH, Inv_fire, I.
Qed.

Lemma Inv_millisecond (s : t) : Inv p ti s -> Inv p ti (millisecond s).
Proof.
  intros I. unfold millisecond. apply Inv_fires.
  destruct I as [I1 I2 I3 I4 I5 I6]. constructor; simpl; auto.
Qed.

Lemma Inv_elapse (ms : nat) (s : t) : Inv p ti s -> Inv p ti (elapse ms s).
Proof.
  revert s. induction ms as [|n IH]; intros s I; simpl; [exact I|].
  apply IH, Inv_millisecond, I.
Qed.

Lemma Inv_step (s : t) (e : event) : Inv p ti s -> Inv p ti (step s e).
Proof.
  intros I. destruct e; simpl.
  - apply Inv_handleClick, I.
  - apply Inv_stopTimer, I.
  - apply Inv_elapse, I.
Qed.

Lemma Inv_run (evs : list event) (s : t) : Inv p ti s -> Inv p ti (run evs s).
Proof.
  revert s. induction evs as [|e evs IH]; intros s I; simpl; [exact I|].
  apply IH, Inv_step, I.
Qed.

(** Every state a mounted timer can reach satisfies the invariant. *)
Lemma Inv_reachable (now : Z) (h : nat) (evs : list event) :
  Inv p ti (run evs (mount p (idle_window ti now h))).
Proof. apply Inv_run, Inv_mount. Qed.

Lemma filter_all {A : Type} (f : A -> bool) (l : list A) :
  Forall (fun x => f x = true) l -> List.filter f l = l.
Proof.
  induction 1 as [|x l Hx _ IH]; simpl; [reflexivity|].
  rewrite Hx, IH. reflexivity.
Qed.

(** On a stopped timer [stopTimer] changes nothing, except that it
    writes the title again. *)
Lemma stopTimer_stopped (s : t) :
  Inv p ti s -> stopped (state s) = true ->
  stopTimer s = with_window (set_title (domTitle s) (window s)) s.
Proof.
  intros I Hs.
  assert (Ha : active s = false).
  { unfold active. rewrite Hs. apply andb_false_r. }
  pose proof (idle_when_inactive s I Ha) as T.
  pose proof (clear_interval s I) as C.
  pose proof (inv_stopped _ _ _ I Hs) as Ht.
  destruct s as [pr [pa sto tm] dt dom el iv [tit clk nh tms]].
  unfold stopTimer, with_window, with_state, set_title. simpl in *.
  subst. rewrite C. rewrite filter_all; [reflexivity|].
  eapply Forall_impl; [exact T|]. unfold is_timeout. intros q ->. reflexivity.
Qed.

Lemma tick_time (s : t) :
  state_time (state (tick s)) = Z.max (state_time (state s) - 1) 0.
Proof.
  unfold tick. destruct (state_time (state (countDown s)) =? 0);
    rewrite countDown_eq; reflexivity.
Qed.

Lemma ticks_time (n : nat) (s : t) :
  state_time (state (Nat.iter (S n) tick s)) =
  Z.max (state_time (state s) - Z.of_nat (S n)) 0.
Proof.
  induction n as [|n IH].
  - simpl Nat.iter. rewrite tick_time. reflexivity.
  - change (Nat.iter (S (S n)) tick s) with (tick (Nat.iter (S n) tick s)).
    rewrite tick_time, IH. lia.
Qed.

End TimerFacts.

(** C3.  A tick takes the time left from [r] to [max (r - 1) 0]; so after
    any number of ticks the time left is [max (r - n) 0], never negative.
    A timer of 3 seconds is at 0 after three ticks, and a fourth tick
    leaves it at 0. *)
Theorem tick_floors_at_zero :
  (forall s : Timer.t,
      Timer.state_time (Timer.state (Timer.tick s)) =
      Z.max (Timer.state_time (Timer.state s) - 1) 0)
  /\ (forall (s : Timer.t) (n : nat),
        Timer.state_time (Timer.state (Nat.iter (S n) Timer.tick s)) =
        Z.max (Timer.state_time (Timer.state s) - Z.of_nat (S n)) 0
        /\ 0 <= Timer.state_time (Timer.state (Nat.iter (S n) Timer.tick s)))
  /\ (forall (ti : option string) (w : Timer.Window),
        let s := Timer.mount {| Timer.props_time := 3; Timer.props_title := ti |} w in
        Timer.state_time (Timer.state (Nat.iter 3 Timer.tick s)) = 0
        /\ Timer.state_time (Timer.state (Nat.iter 4 Timer.tick s)) = 0).
Proof.
  split; [exact tick_time|]. split.
  - intros s n. rewrite ticks_time. split; [reflexivity|lia].
  - intros ti w s. rewrite !ticks_time. subst s. simpl. split; reflexivity.
Qed.

(* ===================================================================== *)
(** * Several timers on one page                                          *)
(* ===================================================================== *)

Section PageFacts.

Lemma sync_id (w : Timer.Window) (c : Timer.t) :
  Timer.document_title (Timer.window c) = Timer.document_title w ->
  Timer.clock (Timer.window c) = Timer.clock w ->
  Timer.next_handle (Timer.window c) = Timer.next_handle w ->
  Page.sync w c = c.
Proof.
  destruct c as [pr st dt dom el iv [tit clk nh tms]]. cbn.
  intros -> -> ->. reflexivity.
Qed.

Lemma sync_ext (w w' : Timer.Window) (c : Timer.t) :
  Timer.document_title w = Timer.document_title w' ->
  Timer.clock w = Timer.clock w' ->
  Timer.next_handle w = Timer.next_handle w' ->
  Page.sync w c = Page.sync w' c.
Proof. unfold Page.sync. intros -> -> ->. reflexivity. Qed.

(** What the others do to the window does not break the invariant of a
    timer, handles being handed out upwards. *)
Lemma Inv_sync (p : Timer.Props) (ti : string) (w : Timer.Window) (c : Timer.t) :
  Inv p ti c ->
  (Timer.next_handle (Timer.window c) <= Timer.next_handle w)%nat ->
  Inv p ti (Page.sync w c).
Proof.
  intros [I1 I2 I3 I4 I5 I6] H. constructor; simpl; auto; [lia|].
  eapply Forall_impl; [exact I5|]. intros q [Hq Hk]. split; [simpl; lia|exact Hk].
Qed.

Lemma next_handle_stopTimer (c : Timer.t) :
  Timer.next_handle (Timer.window (Timer.stopTimer c)) =
  Timer.next_handle (Timer.window c).
Proof. reflexivity. Qed.

Lemma next_handle_handleClick (c : Timer.t) :
  (Timer.next_handle (Timer.window c) <=
   Timer.next_handle (Timer.window (Timer.handleClick c)))%nat.
Proof.
  unfold Timer.handleClick.
  destruct (Timer.paused (Timer.state c) || Timer.stopped (Timer.state c));
    simpl; lia.
Qed.

Lemma next_handle_fire (h : nat) (c : Timer.t) :
  (Timer.next_handle (Timer.window c) <=
   Timer.next_handle (Timer.window (Timer.fire h c)))%nat.
Proof.
  unfold Timer.fire. destruct (find _ _) as [q|]; [|lia].
  destruct (Timer.what q); [|simpl; lia].
  unfold Timer.tick. rewrite countDown_eq.
  match goal with
  | |- context [if ?b then _ else _] => destruct b
  end; simpl; lia.
Qed.

Lemma synced_publish (w : Timer.Window) (l : list Timer.t) :
  synced (Page.publish w l).
Proof.
  unfold synced, Page.publish. cbn. apply Forall_fmap, Forall_forall.
  intros c _. cbn. auto.
Qed.

Lemma Good_publish (specs : list (Timer.Props * string)) (w : Timer.Window)
      (l : list Timer.t) :
  (0 < Timer.next_handle w)%nat ->
  Forall2 (fun sp c => Inv (fst sp) (snd sp) c) specs l ->
  Forall (fun c => (Timer.next_handle (Timer.window c) <=
                    Timer.next_handle w)%nat) l ->
  Good specs (Page.publish w l).
Proof.
  intros Hw F B. split; [exact Hw|]. split; [apply synced_publish|].
  cbn. apply Forall2_fmap_r.
  revert B. induction F as [|sp c specs l I F IH]; intros B; constructor.
  - apply Forall_cons_1 in B as [Hc _]. apply Inv_sync; assumption.
  - apply Forall_cons_1 in B as [_ B]. apply IH, B.
Qed.

Lemma Good_init (ti : string) (clk : Z) (h : nat) : Good [] (Page.init ti clk h).
Proof. split; [simpl; lia|]. split; constructor. Qed.

(** A handler or callback of one component keeps the page good, when it
    keeps the invariant of a timer and takes no handle back. *)
Lemma Good_act (f : Timer.t -> Timer.t) (i : nat)
      (specs : list (Timer.Props * string)) (P : Page.t) :
  (forall p ti c, Inv p ti c -> Inv p ti (f c)) ->
  (forall c, (Timer.next_handle (Timer.window c) <=
              Timer.next_handle (Timer.window (f c)))%nat) ->
  Good specs P -> Good specs (Page.act f i P).
Proof.
  intros Hf Hm [Hn [S F]]. unfold Page.act.
  destruct (Page.mounted P !! i) as [c|] eqn:E; [|split; [exact Hn|split; assumption]].
  destruct (Forall2_lookup_r _ _ _ _ _ F E) as [sp [Esp Isp]].
  assert (Sc : Timer.next_handle (Timer.window c) = Page.next P).
  { unfold synced in S. rewrite Forall_forall in S.
    apply (S c), list_elem_of_lookup_2 with i, E. }
  apply Good_publish.
  - specialize (Hm c). lia.
  - rewrite <- (list_insert_id specs i sp Esp).
    apply Forall2_insert; [exact F|]. apply Hf, Isp.
  - apply Forall_insert; [|lia].
    unfold synced in S. eapply Forall_impl; [exact S|].
    intros c' [_ [_ Hc']]. cbn in Hc'. specialize (Hm c). lia.
Qed.

Lemma Good_mount (p : Timer.Props) (specs : list (Timer.Props * string))
      (P : Page.t) :
  Good specs P -> Good (specs ++ [(p, Page.title P)]) (Page.mount p P).
Proof.
  intros [Hn [S F]]. split; [exact Hn|]. split.
  - unfold synced, Page.mount. cbn. apply Forall_app. split; [exact S|].
    constructor; [|constructor]. cbn. auto.
  - unfold Page.mount. cbn. apply Forall2_app; [exact F|].
    constructor; [|constructor]. cbn.
    destruct (Page.next P) as [|h] eqn:En; [lia|].
    change (Page.window_of P []) with
      {| Timer.document_title := Page.title P; Timer.clock := Page.now P;
         Timer.next_handle := Page.next P; Timer.timers := [] |}.
    rewrite En. apply (Inv_mount p (Page.title P) (Page.now P) h).
Qed.

Lemma Good_millisecond (specs : list (Timer.Props * string)) (P : Page.t) :
  Good specs P -> Good specs (Page.millisecond P).
Proof.
  intros [Hn [S F]]. unfold Page.millisecond.
  match goal with
  | |- Good _ (fold_left _ ?l ?Q) =>
      assert (G : Good specs Q); [|generalize l; revert G; generalize Q]
  end.
  - apply Good_publish; [exact Hn|exact F|].
    unfold synced in S. eapply Forall_impl; [exact S|].
    intros c [_ [_ Hc]]. cbn. lia.
  - intros Q G l. revert Q G. induction l as [|x l IH]; intros Q G; [exact G|].
    cbn [fold_left]. apply IH, Good_act; [|apply next_handle_fire|exact G].
    intros p ti c. apply Inv_fire.
Qed.

Lemma Good_elapse (ms : nat) (specs : list (Timer.Props * string)) (P : Page.t) :
  Good specs P -> Good specs (Page.elapse ms P).
Proof.
  revert P. induction ms as [|n IH]; intros P G; [exact G|].
  cbn [Page.elapse]. apply IH, Good_millisecond, G.
Qed.

(** A step of the page keeps the components it has, with their props and
    the titles they were mounted at, and may add one. *)
Lemma Good_step (e : Page.event) (specs : list (Timer.Props * string))
      (P : Page.t) :
  Good specs P -> exists more, Good (specs ++ more) (Page.step P e).
Proof.
  intros G. destruct e as [p|i|i|ms]; cbn [Page.step].
  - exists [(p, Page.title P)]. apply Good_mount, G.
  - exists []. rewrite app_nil_r.
    apply Good_act; [intros p ti c; apply Inv_handleClick
                    |apply next_handle_handleClick|exact G].
  - exists []. rewrite app_nil_r.
    apply Good_act; [intros p ti c; apply Inv_stopTimer
                    |intros c; rewrite next_handle_stopTimer; lia|exact G].
  - exists []. rewrite app_nil_r. apply Good_elapse, G.
Qed.

Lemma Good_run (evs : list Page.event) (specs : list (Timer.Props * string))
      (P : Page.t) :
  Good specs P -> exists more, Good (specs ++ more) (Page.run evs P).
Proof.
  revert specs P. induction evs as [|e evs IH]; intros specs P G.
  - exists []. rewrite app_nil_r. exact G.
  - cbn [Page.run fold_left]. destruct (Good_step e specs P G) as [m1 G1].
    destruct (IH _ _ G1) as [m2 G2]. exists (m1 ++ m2).
    rewrite app_assoc. exact G2.
Qed.

(** Writing the title changes neither the state of a component nor what
    it has armed. *)
Lemma write_title_lookup (ti : string) (P : Page.t) (j : nat) (c : Timer.t) :
  Page.mounted P !! j = Some c ->
  exists c', Page.mounted (Page.write_title ti P) !! j = Some c'
             /\ Timer.state c' = Timer.state c
             /\ Timer.props c' = Timer.props c
             /\ Timer.timers (Timer.window c') = Timer.timers (Timer.window c).
Proof.
  intros E. eexists. split.
  - unfold Page.write_title, Page.publish. cbn. rewrite list_lookup_fmap, E.
    reflexivity.
  - repeat split.
Qed.

Lemma write_title_same (P : Page.t) :
  synced P -> Page.write_title (Page.title P) P = P.
Proof.
  intros S. destruct P as [ti clk nx l]. unfold Page.write_title, Page.publish.
  cbn in *. f_equal. unfold synced in S. cbn in S.
  induction S as [|c l [H1 [H2 H3]] S IH]; [reflexivity|].
  cbn [fmap list_fmap]. f_equal; [|exact IH]. apply sync_id; assumption.
Qed.

(** [stopTimer] on a stopped component of a good page writes the title
    and does nothing else. *)
Lemma stop_stopped (specs : list (Timer.Props * string)) (P : Page.t)
      (i : nat) (c : Timer.t) :
  Good specs P -> Page.mounted P !! i = Some c ->
  Timer.stopped (Timer.state c) = true ->
  Page.act Timer.stopTimer i P = Page.write_title (Timer.domTitle c) P
  /\ Timer.state_time (Timer.state c) = Timer.props_time (Timer.props c).
Proof.
  intros [Hn [S F]] E Hs.
  destruct (Forall2_lookup_r _ _ _ _ _ F E) as [[p ti] [Esp I]]. cbn in I.
  split.
  - unfold Page.act. rewrite E. cbv zeta.
    rewrite (stopTimer_stopped p ti c I Hs).
    assert (Sc : Timer.document_title (Timer.window c) = Page.title P
                 /\ Timer.clock (Timer.window c) = Page.now P
                 /\ Timer.next_handle (Timer.window c) = Page.next P).
    { unfold synced in S. rewrite Forall_forall in S.
      apply (S c), list_elem_of_lookup_2 with i, E. }
    destruct Sc as [_ [S2 S3]].
    unfold Page.write_title, Page.publish. cbn. rewrite S2, S3. f_equal.
    rewrite list_fmap_insert.
    rewrite list_insert_id by (rewrite list_lookup_fmap, E; reflexivity).
    apply list_fmap_ext. intros j cj _. apply sync_ext; cbn; auto.
  - rewrite (inv_stopped _ _ _ I Hs), (inv_default _ _ _ I), (inv_props _ _ _ I).
    reflexivity.
Qed.

End PageFacts.

(** ** A page with one timer is that timer *)

Section OneTimer.
Import Timer.

Variable p : Props.
Variable ti : string.

Lemma in_order_filter (f : pending -> bool) (l : list pending) :
  in_order l -> in_order (List.filter f l).
Proof.
  induction 1 as [|q l S IH F]; simpl; [constructor|].
  destruct (f q); [|exact IH]. constructor; [exact IH|].
  apply Forall_forall. intros q' Hq'. rewrite Forall_forall in F. apply F.
  apply list_elem_of_In in Hq'. apply filter_In in Hq'.
  apply list_elem_of_In, Hq'.
Qed.

Lemma in_order_snoc (l : list pending) (q : pending) :
  in_order l -> Forall (fun q' => (handle q' < handle q)%nat) l ->
  in_order (l ++ [q]).
Proof.
  intros S F. apply StronglySorted_app_2; [|exact S|repeat constructor].
  intros x1 x2 H1 H2. apply list_elem_of_singleton in H2. subst x2.
  rewrite Forall_forall in F. apply F, H1.
Qed.

Lemma in_order_rearm (h : nat) (l : list pending) :
  in_order l ->
  in_order (List.map (fun q => if Nat.eqb (handle q) h
                               then {| handle := handle q; due := due q + 1000;
                                       what := what q |}
                               else q) l).
Proof.
  induction 1 as [|q l S IH F]; simpl; [constructor|].
  constructor; [exact IH|]. apply Forall_forall. intros q' Hq'.
  apply list_elem_of_In, in_map_iff in Hq'. destruct Hq' as [q0 [E Hin]].
  rewrite Forall_forall in F. specialize (F q0 (proj2 (list_elem_of_In _ _) Hin)).
  destruct (handle q =? h)%nat, (handle q0 =? h)%nat; subst q'; exact F.
Qed.

Lemma below_next (s : t) :
  Inv p ti s ->
  Forall (fun q => (handle q < next_handle (window s))%nat) (timers (window s)).
Proof.
  intros I. eapply Forall_impl; [apply (inv_timers _ _ _ I)|]. intros q [H _]. exact H.
Qed.

Lemma in_order_stopTimer (s : t) :
  in_order (timers (window s)) -> in_order (timers (window (stopTimer s))).
Proof. intros S. simpl. apply in_order_filter, S. Qed.

Lemma in_order_handleClick (s : t) :
  Inv p ti s -> in_order (timers (window s)) ->
  in_order (timers (window (handleClick s))).
Proof.
  intros I S. unfold handleClick.
  destruct (paused (state s) || stopped (state s)); simpl.
  - apply in_order_snoc; [exact S|]. apply (below_next s I).
  - apply in_order_filter, S.
Qed.

Lemma in_order_fire (h : nat) (s : t) :
  Inv p ti s -> in_order (timers (window s)) ->
  in_order (timers (window (fire h s))).
Proof.
  intros I S. unfold fire. destruct (find _ _) as [q|]; [|exact S].
  destruct (what q).
  - pose proof (Inv_rearm p ti h s I) as I'.
    pose proof (below_next _ I') as B. revert B.
    unfold tick. rewrite countDown_eq.
    match goal with
    | |- context [if ?b then _ else _] => destruct b
    end; simpl; intros B.
    + apply in_order_snoc; [apply in_order_rearm, S|exact B].
    + apply in_order_rearm, S.
  - simpl. apply in_order_filter, in_order_filter, S.
Qed.

Lemma in_order_fires (hs : list nat) (s : t) :
  Inv p ti s -> in_order (timers (window s)) ->
  in_order (timers (window (fold_left (fun s h => fire h s) hs s))).
Proof.
  revert s. induction hs as [|h hs IH]; intros s I S; [exact S|].
  simpl. apply IH; [apply Inv_fire, I|apply in_order_fire; assumption].
Qed.

Lemma in_order_elapse (ms : nat) (s : t) :
  Inv p ti s -> in_order (timers (window s)) ->
  in_order (timers (window (elapse ms s))).
Proof.
  revert s. induction ms as [|n IH]; intros s I S; [exact S|].
  simpl. apply IH; [apply Inv_millisecond, I|].
  unfold millisecond. apply in_order_fires; [|exact S].
  destruct I as [I1 I2 I3 I4 I5 I6]. constructor; simpl; auto.
Qed.

Lemma in_order_run (evs : list event) (s : t) :
  Inv p ti s -> in_order (timers (window s)) ->
  in_order (timers (window (run evs s))).
Proof.
  revert s. induction evs as [|e evs IH]; intros s I S; [exact S|].
  simpl. apply IH; [apply Inv_step, I|].
  destruct e; simpl.
  - apply in_order_handleClick; assumption.
  - apply in_order_stopTimer, S.
  - apply in_order_elapse; assumption.
Qed.

(** Sorting by handle leaves a list that is in order as it is. *)
Lemma insert_due_in_order (i : nat) (l : list pending) :
  in_order l ->
  fold_right Page.insert_due [] (List.map (fun q => (i, handle q)) l) =
  List.map (fun q => (i, handle q)) l.
Proof.
  induction 1 as [|q l S IH F]; simpl; [reflexivity|].
  rewrite IH. destruct l as [|q' l']; simpl; [reflexivity|].
  apply Forall_cons_1 in F as [Hq _].
  destruct (Nat.leb_spec (handle q) (handle q')); [reflexivity|lia].
Qed.

Lemma act_page_of (f : t -> t) (s : t) :
  Page.act f 0 (page_of s) = page_of (f s).
Proof.
  unfold Page.act, page_of, Page.publish. cbn.
  rewrite sync_id by reflexivity. reflexivity.
Qed.

Lemma fires_page_of (hs : list nat) (s : t) :
  fold_left (fun P x => Page.act (fire (snd x)) (fst x) P)
            (List.map (fun h => (0%nat, h)) hs) (page_of s) =
  page_of (fold_left (fun s h => fire h s) hs s).
Proof.
  revert s. induction hs as [|h hs IH]; intros s; [reflexivity|].
  simpl. rewrite act_page_of. apply IH.
Qed.

Lemma millisecond_page_of (s : t) :
  in_order (timers (window s)) ->
  Page.millisecond (page_of s) = page_of (millisecond s).
Proof.
  intros S. unfold Page.millisecond, millisecond.
  set (s1 := with_window (set_clock (clock (window s) + 1) (window s)) s).
  assert (E : Page.publish
                (set_clock (Page.now (page_of s) + 1) (Page.window_of (page_of s) []))
                (Page.mounted (page_of s)) = page_of s1) by reflexivity.
  rewrite E. unfold Page.due_now. cbn [page_of Page.mounted Page.now imap concat].
  rewrite app_nil_r. unfold Page.due_of.
  rewrite insert_due_in_order by (apply in_order_filter; exact S).
  rewrite <- fires_page_of. rewrite List.map_map. reflexivity.
Qed.

Lemma elapse_page_of (ms : nat) (s : t) :
  Inv p ti s -> in_order (timers (window s)) ->
  Page.elapse ms (page_of s) = page_of (elapse ms s).
Proof.
  revert s. induction ms as [|n IH]; intros s I S; [reflexivity|].
  cbn [Page.elapse elapse]. rewrite millisecond_page_of by exact S.
  apply IH; [apply Inv_millisecond, I|].
  apply (in_order_elapse 1 s I S).
Qed.

Lemma run_page_of (evs : list event) (s : t) :
  Inv p ti s -> in_order (timers (window s)) ->
  Page.run (on_page <$> evs) (page_of s) = page_of (run evs s).
Proof.
  revert s. induction evs as [|e evs IH]; intros s I S; [reflexivity|].
  cbn [fmap list_fmap Page.run run fold_left].
  assert (E : Page.step (page_of s) (on_page e) = page_of (step s e)).
  { destruct e; cbn [on_page Page.step step].
    - apply act_page_of.
    - apply act_page_of.
    - apply elapse_page_of; assumption. }
  fold (Page.run (on_page <$> evs) (Page.step (page_of s) (on_page e))).
  fold (run evs (step s e)).
  rewrite E. apply IH; [apply Inv_step, I|].
  apply (in_order_run [e] s I S).
Qed.

End OneTimer.

(** On a page where it is the only timer mounted, a timer goes through
    the states that [Timer.run] gives it. *)
Lemma page_with_one_timer (p : Timer.Props) (ti : string) (clk : Z) (h : nat)
      (evs : list Timer.event) :
  Page.run (on_page <$> evs) (Page.mount p (Page.init ti clk h)) =
  page_of (Timer.run evs (Timer.mount p (Timer.idle_window ti clk h))).
Proof.
  change (Page.mount p (Page.init ti clk h))
    with (page_of (Timer.mount p (Timer.idle_window ti clk h))).
  apply (run_page_of p ti); [apply Inv_mount|constructor].
Qed.

(** On a page with any timers, in any state it can reach, [stopTimer] on
    a timer leaves none of its ticks armed, puts its time left back to the
    [time] of its record, and writes the title that the page had when the
    timer was mounted. *)
Lemma stop_on_page (ti : string) (clk : Z) (h : nat) (evs1 : list Page.event)
      (p : Timer.Props) (evs2 : list Page.event) :
  let P1 := Page.run evs1 (Page.init ti clk h) in
  let i := length (Page.mounted P1) in
  let P := Page.run evs2 (Page.mount p P1) in
  let Q := Page.step P (Page.Stop i) in
  exists c,
    Page.mounted Q !! i = Some c
    /\ Timer.props c = p
    /\ Forall (fun q => Timer.what q = Timer.Timeout) (Timer.timers (Timer.window c))
    /\ Timer.state_time (Timer.state c) = Timer.props_time p
    /\ Timer.phase c = Timer.Stopped
    /\ Page.title Q = Page.title P1.
Proof.
  intros P1 i P Q.
  destruct (Good_run evs1 [] (Page.init ti clk h) (Good_init ti clk h)) as [specs G1].
  fold P1 in G1. cbn [app] in G1.
  pose proof (Good_mount p specs P1 G1) as G2.
  destruct (Good_run evs2 _ _ G2) as [more G]. fold P in G.
  assert (L : length specs = i).
  { destruct G1 as [_ [_ F]]. apply (Forall2_length _ _ _ F). }
  assert (E : ((specs ++ [(p, Page.title P1)]) ++ more) !! i = Some (p, Page.title P1)).
  { rewrite <- app_assoc, <- L. apply list_lookup_middle. reflexivity. }
  destruct G as [_ [_ F]].
  destruct (Forall2_lookup_l _ _ _ _ _ F E) as [c0 [E0 I]]. cbn [fst snd] in I.
  exists (Timer.stopTimer c0).
  pose proof (Inv_stopTimer p (Page.title P1) c0 I) as I'.
  split; [|split; [|split; [|split; [|split]]]].
  - subst Q. cbn [Page.step]. unfold Page.act. rewrite E0. cbv zeta.
    unfold Page.publish. cbn [Page.mounted]. rewrite list_lookup_fmap.
    rewrite list_lookup_insert_eq by (apply lookup_lt_Some with c0, E0).
    reflexivity.
  - apply (inv_props _ _ _ I').
  - apply (idle_when_inactive p (Page.title P1) _ I').
    unfold Timer.active. simpl. apply andb_false_r.
  - simpl. apply (inv_default _ _ _ I).
  - reflexivity.
  - subst Q. cbn [Page.step]. unfold Page.act. rewrite E0. cbv zeta.
    cbn. apply (inv_dom _ _ _ I).
Qed.

(** C7, amended.  On a page with any timers, in any state it can
    reach, [stopTimer] on a timer that is stopped already leaves the time
    left at the original duration and changes nothing but the document
    title, which it writes again as the timer captured it at its
    construction: every timer keeps its state and what it has armed.
    Where the title is still that one, nothing changes at all. *)
Theorem stop_again_only_rewrites_title :
  forall (ti : string) (clk : Z) (h : nat) (evs : list Page.event)
         (i : nat) (c : Timer.t),
    let P := Page.run evs (Page.init ti clk h) in
    Page.mounted P !! i = Some c ->
    Timer.stopped (Timer.state c) = true ->
    Page.step P (Page.Stop i) = Page.write_title (Timer.domTitle c) P
    /\ Page.title (Page.step P (Page.Stop i)) = Timer.domTitle c
    /\ Timer.state_time (Timer.state c) = Timer.props_time (Timer.props c)
    /\ (forall j cj,
          Page.mounted P !! j = Some cj ->
          exists cj',
            Page.mounted (Page.step P (Page.Stop i)) !! j = Some cj'
            /\ Timer.state cj' = Timer.state cj
            /\ Timer.props cj' = Timer.props cj
            /\ Timer.timers (Timer.window cj') = Timer.timers (Timer.window cj))
    /\ (Page.title P = Timer.domTitle c -> Page.step P (Page.Stop i) = P).
Proof.
  intros ti clk h evs i c P E Hs.
  destruct (Good_run evs [] (Page.init ti clk h) (Good_init ti clk h)) as [specs G].
  fold P in G. cbn [app] in G.
  destruct (stop_stopped specs P i c G E Hs) as [A T].
  cbn [Page.step]. rewrite A. split; [reflexivity|]. split; [reflexivity|].
  split; [exact T|]. split.
  - intros j cj Ej. apply write_title_lookup, Ej.
  - intros <-. apply write_title_same, G.
Qed.

(** Egg is stopped, and Tea counts. *)
Lemma stop_again_only_rewrites_title_witness :
  let evs := [Page.Mount tea; Page.Mount egg; Page.Click 1; Page.Wait 1500;
              Page.Stop 1; Page.Click 0; Page.Wait 1000] in
  let P := Page.run evs (Page.init "Timers" 0 0) in
  exists c,
    Page.mounted P !! 1%nat = Some c
    /\ Timer.stopped (Timer.state c) = true
    /\ Page.step P (Page.Stop 1) = Page.write_title (Timer.domTitle c) P
    /\ Timer.state_time (Timer.state c) = 5.
Proof.
  intros evs P.
  destruct (Page.mounted P !! 1%nat) as [c|] eqn:E; [|vm_compute in E; discriminate].
  assert (Hs : Timer.stopped (Timer.state c) = true).
  { vm_compute in E. injection E as <-. reflexivity. }
  exists c. split; [reflexivity|]. split; [exact Hs|].
  destruct (stop_again_only_rewrites_title "Timers" 0 0%nat evs 1%nat c E Hs)
    as [A [_ [T _]]].
  split; [exact A|]. rewrite T. vm_compute in E. injection E as <-. reflexivity.
Defined.

(** C7 fails.  Egg was stopped, and Tea counts since, its countdown in
    the title.  Stop on Egg, which is stopped already, puts the title of
    the page back over the countdown of Tea, which goes on counting. *)
Lemma second_stop_overwrites_the_countdown :
  let P := tea_counts_after_egg_stopped in
  let Q := Page.step P (Page.Stop 1) in
  Timer.phase <$> Page.mounted P = [Timer.Running; Timer.Stopped]
  /\ Page.title P = ("Tea " +:+ Timer.en_dash +:+ " 00:00:09")%string
  /\ Page.title Q = "Timers"%string
  /\ Timer.phase <$> Page.mounted Q = [Timer.Running; Timer.Stopped]
  /\ Q <> P.
Proof.
  vm_compute. repeat split. discriminate.
Qed.

(** C6, at the input where the code fails.  Egg is mounted while Tea
    counts, and its constructor saves the countdown of Tea as the title to
    restore.  Tea is stopped, which puts the title of the page back.  Egg
    is started: until its first tick the title is that of the page, then
    its own countdown, and Egg is running.  Stop on Egg leaves no tick
    armed and puts its time left back to 5, and it writes the countdown of
    Tea, which has long been stopped. *)
Lemma stop_writes_back_a_stale_countdown :
  let P0 := egg_added_while_tea_counts in
  let P1 := Page.run [Page.Stop 0; Page.Click 1; Page.Wait 999] P0 in
  let P2 := Page.run [Page.Wait 1] P1 in
  let P3 := Page.run [Page.Stop 1] P2 in
  Page.title P0 = ("Tea " +:+ Timer.en_dash +:+ " 00:00:09")%string
  /\ Timer.domTitle <$> Page.mounted P0
       = ["Timers"; "Tea " +:+ Timer.en_dash +:+ " 00:00:09"]%string
  /\ Page.title P1 = "Timers"%string
  /\ Timer.state_time <$> (Timer.state <$> Page.mounted P1) = [10; 5]
  /\ Page.title P2 = ("Egg " +:+ Timer.en_dash +:+ " 00:00:04")%string
  /\ Timer.phase <$> Page.mounted P2 = [Timer.Stopped; Timer.Running]
  /\ Page.title P3 = ("Tea " +:+ Timer.en_dash +:+ " 00:00:09")%string
  /\ Timer.phase <$> Page.mounted P3 = [Timer.Stopped; Timer.Stopped]
  /\ Timer.state_time <$> (Timer.state <$> Page.mounted P3) = [10; 5]
  /\ Timer.timers <$> (Timer.window <$> Page.mounted P3) = [[]; []].
Proof.
  vm_compute. repeat split.
Qed.

(** On a timer freshly mounted, never started, [stopTimer] sets the
    [stopped] flag and nothing else: time left, title and armed timers
    stay, and the timer is as inactive as before. *)
Lemma stopTimer_fresh (p : Timer.Props) (ti : string) (now : Z) (h : nat) :
  let s := Timer.mount p (Timer.idle_window ti now h) in
  Timer.stopTimer s =
    Timer.with_state {| Timer.paused := true; Timer.stopped := true;
                        Timer.state_time := Timer.props_time p |} s
  /\ Timer.active (Timer.stopTimer s) = Timer.active s.
Proof. split; reflexivity. Qed.

(** Stopping twice in a row is stopping once, in any state whatever. *)
Lemma stopTimer_twice (s : Timer.t) :
  Timer.stopTimer (Timer.stopTimer s) = Timer.stopTimer s.
Proof.
  destruct s as [pr [pa sto tm] dt dom el iv [tit clk nh tms]].
  unfold Timer.stopTimer, Timer.with_window, Timer.with_state, Timer.set_title,
    Timer.clear, Timer.set_timers. simpl.
  do 2 f_equal. induction tms as [|q l IH]; simpl; [reflexivity|].
  destruct (negb (Timer.handle q =? iv)%nat) eqn:E; simpl; rewrite ?E, IH; reflexivity.
Qed.

(** *** Cancellation on pause and stop *)

(** C2 fails.  In the grace window the timer is running with the
    grace-delay stop armed; [stopTimer], and [pauseTimer] as well, leaves
    that timeout armed.  Started again at 1050, the timer is running at
    1159 and is stopped at 1160 by the stale callback. *)
Lemma stop_in_grace_window_keeps_timeout :
  Timer.phase in_grace_window = Timer.Running
  /\ Timer.timers (Timer.window (Timer.stopTimer in_grace_window)) =
       [{| Timer.handle := 2; Timer.due := 1160; Timer.what := Timer.Timeout |}]
  /\ Timer.timers (Timer.window (Timer.pauseTimer in_grace_window)) =
       [{| Timer.handle := 2; Timer.due := 1160; Timer.what := Timer.Timeout |}]
  /\ Timer.phase (Timer.run [Timer.Stop; Timer.Click; Timer.Wait 109] in_grace_window)
       = Timer.Running
  /\ Timer.phase (Timer.run [Timer.Stop; Timer.Click; Timer.Wait 110] in_grace_window)
       = Timer.Stopped
  /\ ~ cancels_every_callback.
Proof.
  repeat split; try (vm_compute; reflexivity).
  intros H.
  specialize (H {| Timer.props_time := 1; Timer.props_title := Some "Tea"%string |}
                "Timers"%string 0 0%nat [Timer.Click; Timer.Wait 1000; Timer.Wait 50]
                ltac:(vm_compute; reflexivity)).
  destruct H as [_ H]. vm_compute in H. discriminate H.
Qed.

(** C2, amended.  [pauseTimer] and [stopTimer] cancel the tick and only
    the tick: of the armed timers exactly the timeouts, the grace-delay
    stops, stay armed. *)
Theorem pause_stop_cancel_the_tick :
  forall (p : Timer.Props) (ti : string) (now : Z) (h : nat)
         (evs : list Timer.event),
    let s := Timer.run evs (Timer.mount p (Timer.idle_window ti now h)) in
    Timer.timers (Timer.window (Timer.pauseTimer s)) =
      List.filter is_timeout (Timer.timers (Timer.window s))
    /\ Timer.timers (Timer.window (Timer.stopTimer s)) =
      List.filter is_timeout (Timer.timers (Timer.window s)).
Proof.
  intros p ti now h evs s.
  pose proof (Inv_reachable p ti now h evs) as I. fold s in I.
  pose proof (clear_interval p ti s I) as C.
  split; simpl; exact C.
Qed.

(** ** Refreshing the landing data *)

Section AppFacts.
Import App.

Lemma count_fulfilled (rs : list (option jsvalue)) :
  count_true (List.map is_fulfilled rs) = length (values rs).
Proof.
  induction rs as [|[v|] rs IH]; simpl; [reflexivity| |exact IH].
  rewrite IH. reflexivity.
Qed.

Lemma drain_idle (n : nat) (l : gmap string string) ld pub :
  drain n {| ls := l; landingData := ld; published := pub; jobs := [] |} =
  {| ls := l; landingData := ld; published := pub; jobs := [] |}.
Proof. destruct n; reflexivity. Qed.

(** The resumed [get]s run first, each queueing its [then] callback
    behind whatever is queued already. *)
Lemma drain_gets (l : gmap string string) ld pub (ks : list string) :
  forall (js : list job) (n : nat),
    drain (length ks + n)
      {| ls := l; landingData := ld; published := pub;
         jobs := List.map get_resume ks ++ js |} =
    drain n
      {| ls := l; landingData := ld; published := pub;
         jobs := js ++ List.map (fun k => push_then (Storage.get storage l k)) ks |}.
Proof.
  induction ks as [|k ks IH]; intros js n; simpl.
  - rewrite app_nil_r. reflexivity.
  - unfold enqueue. simpl. rewrite <- app_assoc, IH, <- app_assoc. reflexivity.
Qed.

(** Then the pushes run, each queueing its [setState] callback. *)
Lemma drain_pushes (l : gmap string string) pub (rs : list (option jsvalue)) :
  forall ld (js : list job) (n : nat),
    drain (length rs + n)
      {| ls := l; landingData := ld; published := pub;
         jobs := List.map push_then rs ++ js |} =
    drain n
      {| ls := l; landingData := ld ++ values rs; published := pub;
         jobs := js ++ List.map (fun r => setState_then (is_fulfilled r)) rs |}.
Proof.
  induction rs as [|[v|] rs IH]; intros ld js n; simpl.
  - rewrite !app_nil_r. reflexivity.
  - unfold enqueue, push. simpl. rewrite <- app_assoc, IH, <- !app_assoc. reflexivity.
  - unfold enqueue. simpl. rewrite <- app_assoc, IH, <- !app_assoc. reflexivity.
Qed.

(** Last the [setState] callbacks run, all on the same array. *)
Lemma drain_setStates (l : gmap string string) ld (bs : list bool) :
  forall pub (n : nat),
    drain (length bs + n)
      {| ls := l; landingData := ld; published := pub;
         jobs := List.map setState_then bs |} =
    {| ls := l; landingData := ld;
       published := pub ++ repeat ld (count_true bs); jobs := [] |}.
Proof.
  induction bs as [|[|] bs IH]; intros pub n; simpl.
  - rewrite app_nil_r. apply drain_idle.
  - unfold setState. simpl. rewrite IH, <- app_assoc. reflexivity.
  - apply IH.
Qed.

(** The [then] callback of [keys()] on a non-empty list of keys, and
    everything that follows from it. *)
Lemma drain_keys_then (l : gmap string string) ld pub (ks : list string) (n : nat) :
  ks <> [] ->
  let fetched := values (List.map (Storage.get storage l) ks) in
  drain (S (length ks + (length ks + (length ks + n))))
    {| ls := l; landingData := ld; published := pub; jobs := [keys_then ks] |} =
  {| ls := l; landingData := ld ++ fetched;
     published := pub ++ repeat (ld ++ fetched) (length fetched);
     jobs := [] |}.
Proof.
  intros Hne fetched.
  assert (E : forall a, perform (keys_then ks) a = enqueue (List.map get_resume ks) a)
    by (destruct ks; [contradiction|reflexivity]).
  change (drain (S ?N) {| ls := l; landingData := ld; published := pub;
                          jobs := [keys_then ks] |})
    with (drain N (perform (keys_then ks)
                     {| ls := l; landingData := ld; published := pub; jobs := [] |})).
  rewrite E. unfold enqueue. cbn [ls landingData published jobs app].
  rewrite <- (app_nil_r (List.map get_resume ks)), drain_gets.
  cbn [app].
  rewrite <- (List.map_map (Storage.get storage l) push_then).
  set (rs := List.map (Storage.get storage l) ks).
  replace (length ks) with (length rs) by apply length_map.
  rewrite <- (app_nil_r (List.map push_then rs)), drain_pushes.
  cbn [app].
  rewrite <- (List.map_map is_fulfilled setState_then).
  set (bs := List.map is_fulfilled rs).
  replace (length rs) with (length bs) by apply length_map.
  rewrite drain_setStates. unfold bs. rewrite count_fulfilled. reflexivity.
Qed.

Lemma refresh_result (l : gmap string string) ld pub (n : nat) :
  let ks := Storage.keys storage l in
  let fetched := values (List.map (Storage.get storage l) ks) in
  refresh (3 * length ks + 2 + n)
    {| ls := l; landingData := ld; published := pub; jobs := [] |} =
  {| ls := l; landingData := fetched;
     published := pub ++ match ks with
                         | [] => [[]]
                         | _ => repeat fetched (length fetched)
                         end;
     jobs := [] |}.
Proof.
  intros ks fetched. unfold refresh, getLandingData.
  replace (3 * length ks + 2 + n)%nat
    with (S (S (length ks + (length ks + (length ks + n)))))%nat by lia.
  change (drain (S ?N) {| ls := ?a; landingData := ?b; published := ?c;
                          jobs := ?d ++ [keys_resume] |})
    with (drain N {| ls := l; landingData := []; published := pub;
                     jobs := [keys_then ks] |}).
  clearbody ks. subst fetched.
  destruct ks as [|k ks']; [exact (drain_idle n l [] (pub ++ [[]]))|].
  rewrite (drain_keys_then l [] pub (k :: ks') n); [reflexivity|discriminate].
Qed.

End AppFacts.

(** C1 fails.  With two timers stored, one [getLandingData()] call
    publishes twice, each time the list of both. *)
Lemma refresh_two_timers_publishes_twice :
  Storage.keys App.storage two_timers = ["timer-17"; "timer-18"]%string
  /\ App.published (App.refresh 8 (App.init two_timers)) =
       [[JTimer (mkTimerData 17 300 "Tea"); JTimer (mkTimerData 18 240 "Egg")];
        [JTimer (mkTimerData 17 300 "Tea"); JTimer (mkTimerData 18 240 "Egg")]]
  /\ App.jobs (App.refresh 8 (App.init two_timers)) = []
  /\ ~ publishes_exactly_once.
Proof.
  repeat split; try (vm_compute; reflexivity).
  intros H. specialize (H two_timers 0%nat). vm_compute in H. discriminate H.
Qed.

(** C1, amended.  One [getLandingData()] call runs to an empty job queue
    and publishes once for each key whose fetch is fulfilled (once, the
    empty list, when the store has no timer key).  Every one of these
    publications is made after all the fetched records are in the array:
    each publishes the full list, none a partial one. *)
Theorem refresh_publishes_full_list_per_key :
  forall (l : gmap string string) (ld : list jsvalue)
         (pub : list (list jsvalue)) (n : nat),
    let ks := Storage.keys App.storage l in
    let fetched := values (List.map (Storage.get App.storage l) ks) in
    let a := App.refresh (3 * length ks + 2 + n)
               {| App.ls := l; App.landingData := ld;
                  App.published := pub; App.jobs := [] |} in
    App.jobs a = []
    /\ App.landingData a = fetched
    /\ exists news,
         App.published a = pub ++ news
         /\ Forall (fun published_list => published_list = fetched) news
         /\ length news = match ks with
                          | [] => 1%nat
                          | _ => length fetched
                          end.
Proof.
  intros l ld pub n. cbv zeta.
  pose proof (refresh_result l ld pub n) as R. cbv zeta in R. rewrite R. clear R.
  cbn [App.jobs App.landingData App.published].
  split; [reflexivity|]. split; [reflexivity|].
  eexists. split; [reflexivity|].
  destruct (Storage.keys App.storage l) as [|k ks'].
  - split; [|reflexivity]. constructor; [reflexivity|constructor].
  - split; [|apply repeat_length].
    apply Forall_forall. intros x Hx. apply list_elem_of_In, repeat_spec in Hx. exact Hx.
Qed.

(* ===================================================================== *)
(** * Further properties of the store                                     *)
(* ===================================================================== *)

Section StorageMore.

Variable st : Storage.t.

Lemma get_insert_same (l : gmap string string) (k : string) (v : jsvalue) :
  Storage.get st (Storage.set st l k v) k = Some v.
Proof.
  unfold Storage.get, Storage.set. rewrite lookup_insert_eq. apply parse_stringify.
Qed.

Lemma keys_NoDup (l : gmap string string) : NoDup (Storage.keys st l).
Proof.
  assert (N : NoDup (Storage.Object_keys l)) by apply NoDup_fst_map_to_list.
  unfold Storage.keys. destruct (Storage.prefix st); [exact N|].
  apply NoDup_ListNoDup, List.NoDup_filter, NoDup_ListNoDup, N.
Qed.

Lemma keys_set (l : gmap string string) (k : string) (v : jsvalue) (k' : string) :
  In k' (Storage.keys st (Storage.set st l k v)) <->
  k' = Storage.prefixed st k \/ In k' (Storage.keys st l).
Proof.
  rewrite !keys_spec. unfold Storage.set. split.
  - intros [[x Hx] Hi]. destruct (decide (Storage.prefixed st k = k')) as [E|E].
    + left. symmetry. exact E.
    + right. rewrite lookup_insert_ne in Hx by exact E. eauto.
  - intros [->|[[x Hx] Hi]].
    + split; [|apply prefixed_includes]. rewrite lookup_insert_eq. eauto.
    + split; [|exact Hi].
      destruct (decide (Storage.prefixed st k = k')) as [E|E].
      * rewrite E, lookup_insert_eq. eauto.
      * rewrite lookup_insert_ne by exact E. eauto.
Qed.

Lemma keys_delete (l : gmap string string) (k k' : string) :
  In k' (Storage.keys st (Storage.delete st l k)) <->
  k' <> Storage.prefixed st k /\ In k' (Storage.keys st l).
Proof.
  rewrite !keys_spec. unfold Storage.delete. split.
  - intros [[x Hx] Hi]. destruct (decide (Storage.prefixed st k = k')) as [E|E].
    + rewrite E, lookup_delete_eq in Hx. discriminate.
    + rewrite lookup_delete_ne in Hx by exact E. split; [congruence|eauto].
  - intros [E [[x Hx] Hi]]. split; [|exact Hi].
    rewrite lookup_delete_ne by congruence. eauto.
Qed.

End StorageMore.

(** X1.  Reading a key that was deleted, or a key of an empty store, gives
    [null]: [getItem] answers [null] and [JSON.parse] reads it as the text
    [null]; nothing is thrown. *)
Theorem get_after_delete_is_null :
  forall (st : Storage.t) (l : gmap string string) (k : string),
    Storage.get st (Storage.delete st l k) k = Some JNull
    /\ Storage.get st ∅ k = Some JNull.
Proof.
  intros st l k. unfold Storage.get, Storage.delete.
  rewrite lookup_delete_eq, lookup_empty. split; reflexivity.
Qed.

(** X2.  On a key whose slot is empty [delete] changes nothing, and it
    undoes a [set] on that key: the store is again what it was. *)
Theorem delete_undoes_set :
  forall (st : Storage.t) (l : gmap string string) (k : string) (v : jsvalue),
    l !! Storage.prefixed st k = None ->
    Storage.delete st l k = l
    /\ Storage.delete st (Storage.set st l k v) k = l.
Proof.
  intros st l k v H. unfold Storage.delete, Storage.set. split.
  - apply delete_id. exact H.
  - rewrite delete_insert_eq. apply delete_id. exact H.
Qed.

Lemma delete_undoes_set_witness :
  let st := Storage.new (Some "timer"%string) in
  let l : gmap string string := <["app-theme"%string := "dark"%string]> ∅ in
  l !! Storage.prefixed st "17" = None
  /\ Storage.delete st l "17" = l
  /\ Storage.delete st (Storage.set st l "17" JNull) "17" = l.
Proof.
  intros st l.
  assert (H : l !! Storage.prefixed st "17" = None) by (vm_compute; reflexivity).
  split; [exact H|]. exact (delete_undoes_set st l "17" JNull H).
Defined.

(** X3.  The last write wins: a second [set] on a key replaces the first,
    leaving the store as if only the second had been made, and [get] reads
    the second value. *)
Theorem set_overwrites :
  forall (st : Storage.t) (l : gmap string string) (k : string) (v1 v2 : jsvalue),
    Storage.set st (Storage.set st l k v1) k v2 = Storage.set st l k v2
    /\ Storage.get st (Storage.set st (Storage.set st l k v1) k v2) k = Some v2.
Proof.
  intros st l k v1 v2. split.
  - unfold Storage.set. apply insert_insert_eq.
  - apply get_insert_same.
Qed.

(** X4.  Keys with different slots do not disturb each other: [set] and
    [delete] on one leave what [get] reads on the other. *)
Theorem other_slot_untouched :
  forall (st : Storage.t) (l : gmap string string) (k1 k2 : string) (v : jsvalue),
    Storage.prefixed st k1 <> Storage.prefixed st k2 ->
    Storage.get st (Storage.set st l k1 v) k2 = Storage.get st l k2
    /\ Storage.get st (Storage.delete st l k1) k2 = Storage.get st l k2.
Proof.
  intros st l k1 k2 v H. unfold Storage.get, Storage.set, Storage.delete.
  rewrite lookup_insert_ne, lookup_delete_ne by exact H. split; reflexivity.
Qed.

Lemma other_slot_untouched_witness :
  let st := Storage.new (Some "timer"%string) in
  let tea := JTimer (mkTimerData 17 300 "Tea") in
  let egg := JTimer (mkTimerData 18 240 "Egg") in
  let l := Storage.set st ∅ "18" egg in
  Storage.prefixed st "17" <> Storage.prefixed st "18"
  /\ Storage.get st (Storage.set st l "17" tea) "18" = Storage.get st l "18"
  /\ Storage.get st (Storage.delete st l "17") "18" = Storage.get st l "18".
Proof.
  intros st tea egg l.
  assert (H : Storage.prefixed st "17" <> Storage.prefixed st "18")
    by (vm_compute; discriminate).
  split; [exact H|]. exact (other_slot_untouched st l "17" "18" tea H).
Defined.

(** X5.  [keys()] lists, each once, exactly the keys present in
    [localStorage] that contain the prefix, whoever wrote them; a key
    without the prefix in it is never listed. *)
Theorem keys_lists_slots_containing_prefix :
  forall (st : Storage.t) (l : gmap string string),
    NoDup (Storage.keys st l)
    /\ forall k, In k (Storage.keys st l) <->
                 is_Some (l !! k) /\ JS.includes k (Storage.prefix st) = true.
Proof.
  intros st l. split; [apply keys_NoDup|]. intros k. apply keys_spec.
Qed.

(** X6.  A store made without a prefix, or with the empty one, uses every
    key as it is and lists all the keys of [localStorage]. *)
Theorem no_prefix_is_identity :
  forall (p : option string) (l : gmap string string) (k : string),
    (p = None \/ p = Some EmptyString) ->
    Storage.prefixed (Storage.new p) k = k
    /\ Storage.keys (Storage.new p) l = Storage.Object_keys l.
Proof.
  intros p l k [-> | ->]; split; try reflexivity;
    unfold Storage.prefixed; simpl; rewrite includes_empty; reflexivity.
Qed.

Lemma no_prefix_is_identity_witness :
  (@None string = None \/ @None string = Some EmptyString)
  /\ Storage.prefixed (Storage.new None) "timer-17" = "timer-17"%string
  /\ Storage.keys (Storage.new None) two_timers = Storage.Object_keys two_timers.
Proof.
  split; [left; reflexivity|].
  exact (no_prefix_is_identity None two_timers "timer-17" (or_introl eq_refl)).
Defined.

(** X7.  After [set(k, v)] the listed keys are those listed before and the
    slot of [k]; after [delete(k)] they are those listed before except the
    slot of [k]. *)
Theorem keys_follow_set_and_delete :
  forall (st : Storage.t) (l : gmap string string) (k : string) (v : jsvalue)
         (k' : string),
    (In k' (Storage.keys st (Storage.set st l k v)) <->
       k' = Storage.prefixed st k \/ In k' (Storage.keys st l))
    /\ (In k' (Storage.keys st (Storage.delete st l k)) <->
       k' <> Storage.prefixed st k /\ In k' (Storage.keys st l)).
Proof.
  intros st l k v k'. split; [apply keys_set|apply keys_delete].
Qed.


(* ===================================================================== *)
(** * Numbers printed and parsed: the [Input] and the display             *)
(* ===================================================================== *)

Section ParseFacts.
Import JS.

Lemma all_digit_uint (d : Decimal.uint) :
  all is_digit (NilEmpty.string_of_uint d) = true.
Proof. induction d; simpl; auto. Qed.

Lemma span_all (p : ascii -> bool) (a : string) :
  all p a = true -> span p a = (a, EmptyString).
Proof.
  induction a as [|x a IH]; simpl; [reflexivity|].
  intros H. apply andb_prop in H as [Hx Ha]. rewrite Hx, (IH Ha). reflexivity.
Qed.

Lemma parseDigits_digits (ds : string) :
  all is_digit ds = true -> ds <> EmptyString ->
  parseDigits ds = option_map Z.of_uint (NilEmpty.uint_of_string ds).
Proof.
  intros Ha Hne. unfold parseDigits. rewrite (span_all _ _ Ha).
  destruct ds; [contradiction|reflexivity].
Qed.

Lemma parseDigits_uint (d : Decimal.uint) :
  d <> Decimal.Nil ->
  parseDigits (NilEmpty.string_of_uint d) = Some (Z.of_uint d).
Proof.
  intros Hd. rewrite parseDigits_digits.
  - rewrite NilEmpty.usu. reflexivity.
  - apply all_digit_uint.
  - destruct d; simpl; congruence.
Qed.

Lemma parseInt_digit (c : ascii) (s : string) :
  is_digit c = true ->
  parseInt (String c s) =
  match parseDigits (String c s) with Some n => Num n | None => NaN end.
Proof.
  destruct c as [[|] [|] [|] [|] [|] [|] [|] [|]];
    intros H; try discriminate H; reflexivity.
Qed.

Lemma parseInt_uint (d : Decimal.uint) :
  d <> Decimal.Nil ->
  parseInt (NilEmpty.string_of_uint d) = Num (Z.of_uint d).
Proof.
  intros Hd. pose proof (parseDigits_uint d Hd) as P.
  pose proof (all_digit_uint d) as A.
  destruct (NilEmpty.string_of_uint d) as [|c r] eqn:E.
  - destruct d; simpl in E; congruence.
  - simpl in A. apply andb_prop in A as [Hc _].
    rewrite (parseInt_digit c r Hc), P. reflexivity.
Qed.

Lemma of_uint_pos (q : positive) : Z.of_uint (Pos.to_uint q) = Z.pos q.
Proof. unfold Z.of_uint. rewrite DecimalPos.Unsigned.of_to. reflexivity. Qed.

(** [parseInt] reads back what [toString] prints. *)
Lemma parseInt_toString (n : Z) : parseInt (Number_toString n) = Num n.
Proof.
  unfold Number_toString. destruct n as [|q|q]; [reflexivity| |].
  - simpl. rewrite parseInt_uint by apply Unsigned.to_uint_nonnil.
    rewrite of_uint_pos. reflexivity.
  - simpl. change (parseInt (String "-" (NilEmpty.string_of_uint (Pos.to_uint q))))
      with (match parseDigits (NilEmpty.string_of_uint (Pos.to_uint q)) with
            | Some n => Num (- n) | None => NaN end).
    rewrite parseDigits_uint by apply Unsigned.to_uint_nonnil.
    rewrite of_uint_pos. reflexivity.
Qed.

Lemma parseInt_cases (s : string) :
  parseInt s = NaN \/ exists n, parseInt s = Num n.
Proof.
  destruct s as [|c s]; [left; reflexivity|].
  destruct c as [[|] [|] [|] [|] [|] [|] [|] [|]];
    lazy beta iota delta [parseInt];
    match goal with
    | |- context [parseDigits ?x] => destruct (parseDigits x); eauto
    end.
Qed.

(** A number from 0 on, padded by [displayNumber], still reads as
    itself. *)
Lemma parseInt_displayNumber (v : Z) :
  0 <= v -> parseInt (Timer.displayNumber v) = Num v.
Proof.
  intros Hv. unfold Timer.displayNumber.
  destruct (String.length (Number_toString v) <? 2)%nat; [|apply parseInt_toString].
  unfold Number_toString. destruct v as [|q|q]; [reflexivity| |lia].
  cbn [Z.to_int NilEmpty.string_of_int].
  rewrite parseInt_digit by reflexivity.
  rewrite parseDigits_digits.
  - cbn [NilEmpty.uint_of_string]. rewrite NilEmpty.usu.
    cbn [uint_of_char option_map].
    change (Z.of_uint (Decimal.D0 (Pos.to_uint q))) with (Z.of_uint (Pos.to_uint q)).
    rewrite of_uint_pos. reflexivity.
  - cbn [all]. rewrite all_digit_uint. reflexivity.
  - discriminate.
Qed.

Lemma toString_nonempty (v : Z) : (1 <= String.length (Number_toString v))%nat.
Proof.
  unfold Number_toString. destruct v as [|q|q]; simpl; try lia.
  pose proof (Unsigned.to_uint_nonnil q) as H.
  destruct (Pos.to_uint q); simpl; try lia. congruence.
Qed.

Lemma displayNumber_length (v : Z) : (2 <= String.length (Timer.displayNumber v))%nat.
Proof.
  unfold Timer.displayNumber. pose proof (toString_nonempty v) as H.
  destruct (Nat.ltb_spec (String.length (Number_toString v)) 2); simpl; lia.
Qed.

Lemma displayNumber_two_digits (v : Z) :
  0 <= v < 100 -> String.length (Timer.displayNumber v) = 2%nat.
Proof.
  intros Hv.
  assert (F : forallb (fun n => (String.length (Timer.displayNumber (Z.of_nat n)) =? 2)%nat)
                      (seq 0 100) = true) by (vm_compute; reflexivity).
  rewrite forallb_forall in F. specialize (F (Z.to_nat v)).
  rewrite Z2Nat.id in F by lia. apply Nat.eqb_eq, F, in_seq. lia.
Qed.

End ParseFacts.

(** X8.  After [Input.handleChange] the input element holds a value that
    [parseInt] reads as [NaN] or as a number from [min] to [max]; the
    parent is handed the value as typed, before any clamping. *)
Theorem handleChange_keeps_input_in_bounds :
  forall (p : Input.Props) (value : string),
    Input.min p <= Input.max p ->
    snd (Input.handleChange p value) = value
    /\ (JS.parseInt (fst (Input.handleChange p value)) = JS.NaN
        \/ exists n, JS.parseInt (fst (Input.handleChange p value)) = JS.Num n
                     /\ Input.min p <= n <= Input.max p).
Proof.
  intros p value H. split; [reflexivity|].
  unfold Input.handleChange. simpl.
  destruct (parseInt_cases value) as [E|[n E]]; rewrite E; simpl.
  - left. exact E.
  - right. destruct (Z.ltb_spec (Input.max p) n).
    + exists (Input.max p). rewrite parseInt_toString. split; [reflexivity|lia].
    + destruct (Z.ltb_spec n (Input.min p)).
      * exists (Input.min p). rewrite parseInt_toString. split; [reflexivity|lia].
      * exists n. split; [exact E|lia].
Qed.

Lemma handleChange_keeps_input_in_bounds_witness :
  let p := {| Input.max := 24; Input.min := 0 |} in
  Input.min p <= Input.max p
  /\ snd (Input.handleChange p "99") = "99"%string
  /\ (JS.parseInt (fst (Input.handleChange p "99")) = JS.NaN
      \/ exists n, JS.parseInt (fst (Input.handleChange p "99")) = JS.Num n
                   /\ Input.min p <= n <= Input.max p).
Proof.
  intros p. assert (H : Input.min p <= Input.max p) by (simpl; lia).
  split; [exact H|]. exact (handleChange_keeps_input_in_bounds p "99" H).
Defined.

(** X9.  The time a timer displays reads back as the time left: from 0
    on, its hours, minutes and seconds are numbers with minutes and
    seconds below 60 and of two characters each, and [calcTime] of the
    three is the time left. *)
Theorem display_reads_back :
  forall s : Timer.t,
    0 <= Timer.state_time (Timer.state s) ->
    Add.calcTime (JS.parseInt (Timer.getHours s))
                 (JS.parseInt (Timer.getMinutes s))
                 (JS.parseInt (Timer.getSeconds s))
      = JS.Num (Timer.state_time (Timer.state s))
    /\ (exists m sec,
          JS.parseInt (Timer.getMinutes s) = JS.Num m
          /\ JS.parseInt (Timer.getSeconds s) = JS.Num sec
          /\ 0 <= m < 60 /\ 0 <= sec < 60)
    /\ (2 <= String.length (Timer.getHours s))%nat
    /\ String.length (Timer.getMinutes s) = 2%nat
    /\ String.length (Timer.getSeconds s) = 2%nat.
Proof.
  intros s Hr. unfold Timer.getHours, Timer.getMinutes, Timer.getSeconds.
  set (r := Timer.state_time (Timer.state s)) in *.
  rewrite !Z.rem_mod_nonneg by (try lia; apply Z.mod_pos_bound; lia).
  pose proof (Z.mod_pos_bound r 3600 ltac:(lia)) as B1.
  pose proof (Z.mod_pos_bound (r mod 3600) 60 ltac:(lia)) as B2.
  pose proof (Z.div_pos r 3600 Hr ltac:(lia)) as B3.
  assert (B4 : 0 <= r mod 3600 / 60 < 60).
  { split; [apply Z.div_pos; lia|apply Z.div_lt_upper_bound; lia]. }
  rewrite !parseInt_displayNumber by lia.
  split; [|split; [|split; [|split]]].
  - rewrite calcTime_value. simpl. f_equal.
    pose proof (Z.div_mod r 3600 ltac:(lia)).
    pose proof (Z.div_mod (r mod 3600) 60 ltac:(lia)). lia.
  - eexists. eexists. split; [reflexivity|]. split; [reflexivity|]. lia.
  - apply displayNumber_length.
  - apply displayNumber_two_digits. lia.
  - apply displayNumber_two_digits. lia.
Qed.

Lemma display_reads_back_witness :
  let s := Timer.mount {| Timer.props_time := 3723; Timer.props_title := None |}
                       (Timer.idle_window "Timers" 0 0) in
  0 <= Timer.state_time (Timer.state s)
  /\ Add.calcTime (JS.parseInt (Timer.getHours s))
                  (JS.parseInt (Timer.getMinutes s))
                  (JS.parseInt (Timer.getSeconds s)) = JS.Num 3723.
Proof.
  intros s. assert (H : 0 <= Timer.state_time (Timer.state s)) by (simpl; lia).
  split; [exact H|]. exact (proj1 (display_reads_back s H)).
Defined.


(* ===================================================================== *)
(** * Creating, listing and removing timers                               *)
(* ===================================================================== *)

Section LifecycleFacts.
Import JS.

Lemma includes_num_timer (s : string) :
  all JSON.is_num_char s = true -> includes s "timer" = false.
Proof.
  induction s as [|c s IH]; [reflexivity|].
  intros H. simpl in H. apply andb_prop in H as [Hc Hs].
  change (startsWith (String c s) "timer" || includes s "timer" = false).
  rewrite (IH Hs), orb_false_r.
  destruct c as [[|] [|] [|] [|] [|] [|] [|] [|]]; try discriminate Hc; reflexivity.
Qed.

(** The key [id.toString()] addresses the slot [timer-<id>]. *)
Lemma prefixed_id (i : Z) :
  Storage.prefixed App.storage (Number_toString i) = slot_of i.
Proof.
  unfold Storage.prefixed. change (Storage.prefix App.storage) with "timer"%string.
  rewrite includes_num_timer by apply all_num_toString. reflexivity.
Qed.

Lemma slot_includes (i : Z) : includes (slot_of i) "timer" = true.
Proof. exact (includes_app "timer" (String "-" (Number_toString i))). Qed.

Lemma slot_fixed (i : Z) : Storage.prefixed App.storage (slot_of i) = slot_of i.
Proof. apply prefixed_fixed, slot_includes. Qed.

Lemma slot_of_inj (i j : Z) : slot_of i = slot_of j -> i = j.
Proof.
  unfold slot_of. intros E.
  assert (E' : Number_toString i = Number_toString j).
  { change (String "t" (String "i" (String "m" (String "e" (String "r"
              (String "-" (Number_toString i)))))) =
            String "t" (String "i" (String "m" (String "e" (String "r"
              (String "-" (Number_toString j))))))) in E.
    congruence. }
  apply (f_equal parseInt) in E'. rewrite !parseInt_toString in E'. congruence.
Qed.

Lemma values_In (A : Type) (f : A -> option jsvalue) (ks : list A) (v : jsvalue) :
  In v (values (List.map f ks)) <-> exists k, In k ks /\ f k = Some v.
Proof.
  induction ks as [|k ks IH]; simpl.
  - split; [contradiction|]. intros [k [[] _]].
  - destruct (f k) as [w|] eqn:E; simpl; rewrite IH; split.
    + intros [->|[k' [H1 H2]]]; [exists k; auto|exists k'; auto].
    + intros [k' [[->|H1] H2]]; [left; congruence|right; eauto].
    + intros [k' [H1 H2]]. exists k'. auto.
    + intros [k' [[->|H1] H2]]; [congruence|eauto].
Qed.

Lemma fetched_In (l : gmap string string) (v : jsvalue) :
  In v (fetched_from l) <->
  exists k, In k (Storage.keys App.storage l) /\ Storage.get App.storage l k = Some v.
Proof. apply values_In. Qed.

(** What a valid form puts into the store. *)
Lemma saveTimer_valid (f : Add.form) (uuid now : Z) (a : Add.t) :
  Add.guard (total_of f) = true ->
  exists v,
    Add.saveTimer f uuid now a =
      {| Add.ls := Storage.set Add.storage (Add.ls a)
                     (Number_toString (Add.generateUUID uuid now)) (JTimer v);
         Add.error := Add.error a;
         Add.calls := Add.calls a ++ [Add.onBack; Add.onRefresh;
                                      Add.onMessage "Timer successfully added"] |}
    /\ id v = Add.generateUUID uuid now
    /\ Num (time v) = total_of f /\ 0 < time v
    /\ title v = match Add.title_value f with
                 | Some t => t
                 | None => EmptyString
                 end.
Proof.
  intros G. unfold Add.saveTimer. fold (total_of f). rewrite G.
  eexists. split; [reflexivity|]. cbn [id time title].
  split; [reflexivity|].
  unfold Add.guard in G. destruct (total_of f) as [| |n]; try discriminate G.
  simpl in G. split; [reflexivity|]. split; [simpl; lia|].
  destruct (Add.title_value f) as [[|c r]|]; reflexivity.
Qed.

Lemma well_keyed_set (l : gmap string string) (v : TimerData) :
  well_keyed l ->
  well_keyed (Storage.set App.storage l (Number_toString (id v)) (JTimer v)).
Proof.
  intros W k w Hk Hg. apply keys_set in Hk. rewrite prefixed_id in Hk.
  destruct (decide (k = slot_of (id v))) as [E|E].
  - subst k. unfold Storage.get, Storage.set in Hg.
    rewrite prefixed_id in Hg.
    rewrite slot_fixed in Hg.
    rewrite lookup_insert_eq, parse_stringify in Hg. congruence.
  - destruct Hk as [Hk|Hk]; [contradiction|].
    apply (W k w Hk). rewrite <- Hg. unfold Storage.get, Storage.set.
    rewrite prefixed_id.
    rewrite (prefixed_fixed App.storage k) by (eapply keys_includes; exact Hk).
    rewrite lookup_insert_ne by congruence. reflexivity.
Qed.

Lemma well_keyed_delete (l : gmap string string) (k0 : string) :
  well_keyed l -> well_keyed (Storage.delete App.storage l k0).
Proof.
  intros W k w Hk Hg. apply keys_delete in Hk. destruct Hk as [Hne Hk].
  apply (W k w Hk). rewrite <- Hg. unfold Storage.get, Storage.delete.
  rewrite (prefixed_fixed App.storage k) by (eapply keys_includes; exact Hk).
  rewrite lookup_delete_ne by congruence. reflexivity.
Qed.

Lemma well_keyed_empty : well_keyed ∅.
Proof. intros k v Hk _. apply keys_spec in Hk. destruct Hk as [[x Hx] _]. rewrite lookup_empty in Hx. discriminate. Qed.

Lemma get_delete_other (l : gmap string string) (i : Z) (k : string) :
  In k (Storage.keys App.storage l) -> k <> slot_of i ->
  Storage.get App.storage (Storage.delete App.storage l (Number_toString i)) k =
  Storage.get App.storage l k.
Proof.
  intros Hk Hne. unfold Storage.get, Storage.delete. rewrite prefixed_id.
  rewrite (prefixed_fixed App.storage k) by (eapply keys_includes; exact Hk).
  rewrite lookup_delete_ne by congruence. reflexivity.
Qed.

Lemma fetched_delete (l : gmap string string) (i : Z) (v : TimerData) :
  well_keyed l ->
  (In (JTimer v) (fetched_from (Storage.delete App.storage l (Number_toString i)))
   <-> In (JTimer v) (fetched_from l) /\ id v <> i).
Proof.
  intros W. rewrite !fetched_In. split.
  - intros [k [Hk Hg]]. apply keys_delete in Hk. rewrite prefixed_id in Hk.
    destruct Hk as [Hne Hk]. rewrite get_delete_other in Hg by assumption.
    split; [exists k; auto|].
    intros E. apply Hne. rewrite (W k v Hk Hg), E. reflexivity.
  - intros [[k [Hk Hg]] Hne]. exists k.
    assert (Hk' : k <> slot_of i).
    { rewrite (W k v Hk Hg). intros E. apply Hne, slot_of_inj, E. }
    split.
    + apply keys_delete. rewrite prefixed_id. auto.
    + rewrite get_delete_other by assumption. exact Hg.
Qed.

Lemma refresh_init (l : gmap string string) (n : nat) :
  App.refresh (3 * length (Storage.keys App.storage l) + 2 + n) (App.init l) =
  {| App.ls := l; App.landingData := fetched_from l;
     App.published := match Storage.keys App.storage l with
                      | [] => [[]]
                      | _ => repeat (fetched_from l) (length (fetched_from l))
                      end;
     App.jobs := [] |}.
Proof.
  pose proof (refresh_result l [] [] n) as R. cbv zeta in R.
  unfold App.init. rewrite R. reflexivity.
Qed.

Lemma get_slot_set (l : gmap string string) (v : TimerData) :
  Storage.get App.storage
    (Storage.set App.storage l (Number_toString (id v)) (JTimer v))
    (slot_of (id v)) = Some (JTimer v).
Proof.
  unfold Storage.get, Storage.set. rewrite prefixed_id, slot_fixed.
  rewrite lookup_insert_eq. apply parse_stringify.
Qed.

End LifecycleFacts.

(** X10.  A form that passes the guard is stored under [timer-<id>] with
    an id that is not negative, the total as its time and the title typed
    (empty when there is none); [get] with the id reads that record back,
    and the slide goes back, asks for a refresh and reports success. *)
Theorem saved_timer_reads_back :
  forall (f : Add.form) (uuid now : Z) (a : Add.t),
    Add.guard (total_of f) = true ->
    let a' := Add.saveTimer f uuid now a in
    let i := Add.generateUUID uuid now in
    exists v,
      Storage.get Add.storage (Add.ls a') (JS.Number_toString i) = Some (JTimer v)
      /\ In (slot_of i) (Storage.keys Add.storage (Add.ls a'))
      /\ id v = i /\ 0 <= i
      /\ JS.Num (time v) = total_of f /\ 0 < time v
      /\ title v = match Add.title_value f with
                   | Some t => t
                   | None => EmptyString
                   end
      /\ Add.calls a' = Add.calls a ++ [Add.onBack; Add.onRefresh;
                                        Add.onMessage "Timer successfully added"].
Proof.
  intros f uuid now a G a' i.
  destruct (saveTimer_valid f uuid now a G) as [v [E [Hi [Ht [Hp Hti]]]]].
  exists v. subst a'. rewrite E. cbn [Add.ls Add.calls].
  split; [apply get_insert_same|].
  split.
  { change Add.storage with App.storage. apply keys_set. left.
    symmetry. apply prefixed_id. }
  split; [exact Hi|]. split; [apply Z.abs_nonneg|].
  split; [exact Ht|]. split; [exact Hp|]. split; [exact Hti|reflexivity].
Qed.

Lemma saved_timer_reads_back_witness :
  let f := {| Add.title_value := Some "Tea"%string;
              Add.hours_value := Some ""%string;
              Add.minutes_value := Some "5"%string;
              Add.seconds_value := Some ""%string |} in
  let a := {| Add.ls := ∅; Add.error := false; Add.calls := [] |} in
  Add.guard (total_of f) = true
  /\ exists v,
       Storage.get Add.storage (Add.ls (Add.saveTimer f 4294967295 1700000000000 a))
                   "1704294967295" = Some (JTimer v)
       /\ time v = 300 /\ title v = "Tea"%string.
Proof.
  intros f a.
  assert (G : Add.guard (total_of f) = true) by (vm_compute; reflexivity).
  split; [exact G|].
  destruct (saved_timer_reads_back f 4294967295 1700000000000 a G)
    as [v [H1 [_ [_ [_ [H2 [_ [H3 _]]]]]]]].
  exists v. split; [exact H1|]. split; [|exact H3].
  change (total_of f) with (JS.Num 300) in H2. congruence.
Defined.

(** X11.  A timer that was created is listed by the next refresh: the
    record is in the refreshed [landingData], the refresh publishes at
    least once, and every list it publishes holds the record. *)
Theorem created_timer_is_listed :
  forall (f : Add.form) (uuid now : Z) (a : Add.t) (n : nat),
    Add.guard (total_of f) = true ->
    let l := Add.ls (Add.saveTimer f uuid now a) in
    let app := App.refresh (3 * length (Storage.keys App.storage l) + 2 + n)
                           (App.init l) in
    exists v,
      id v = Add.generateUUID uuid now
      /\ JS.Num (time v) = total_of f
      /\ In (JTimer v) (App.landingData app)
      /\ App.published app <> []
      /\ Forall (fun published_list => In (JTimer v) published_list)
                (App.published app).
Proof.
  intros f uuid now a n G l app.
  destruct (saveTimer_valid f uuid now a G) as [v [E [Hi [Ht _]]]].
  exists v. split; [exact Hi|]. split; [exact Ht|].
  subst app. rewrite refresh_init. cbn [App.landingData App.published].
  assert (El : l = Storage.set App.storage (Add.ls a)
                     (JS.Number_toString (id v)) (JTimer v)).
  { subst l. rewrite E, Hi. reflexivity. }
  assert (Hk : In (slot_of (id v)) (Storage.keys App.storage l)).
  { rewrite El. apply keys_set. left. symmetry. apply prefixed_id. }
  assert (Hin : In (JTimer v) (fetched_from l)).
  { apply fetched_In. exists (slot_of (id v)). split; [exact Hk|].
    rewrite El. apply get_slot_set. }
  split; [exact Hin|].
  destruct (Storage.keys App.storage l) as [|k ks]; [contradiction|].
  destruct (fetched_from l) as [|x xs] eqn:F; [contradiction|].
  split; [discriminate|].
  apply Forall_forall. intros y Hy. apply list_elem_of_In, repeat_spec in Hy.
  subst y. exact Hin.
Qed.

Lemma created_timer_is_listed_witness :
  let f := {| Add.title_value := Some "Tea"%string;
              Add.hours_value := Some ""%string;
              Add.minutes_value := Some "5"%string;
              Add.seconds_value := Some ""%string |} in
  let a := {| Add.ls := two_timers; Add.error := false; Add.calls := [] |} in
  Add.guard (total_of f) = true
  /\ exists v, time v = 300
       /\ In (JTimer v)
            (App.landingData
               (App.refresh 11 (App.init (Add.ls (Add.saveTimer f 3 16 a))))).
Proof.
  intros f a.
  assert (G : Add.guard (total_of f) = true) by (vm_compute; reflexivity).
  split; [exact G|].
  destruct (created_timer_is_listed f 3 16 a 0 G) as [v [_ [H2 [H3 _]]]].
  exists v. split.
  - change (total_of f) with (JS.Num 300) in H2. congruence.
  - exact H3.
Defined.

(** X12.  Ids are not checked for collisions: a second create that draws
    the id of an earlier one replaces its record, and the store is as if
    only the second timer had been created. *)
Theorem colliding_id_overwrites :
  forall (f1 f2 : Add.form) (uuid now : Z) (a : Add.t),
    Add.guard (total_of f1) = true ->
    Add.guard (total_of f2) = true ->
    Add.ls (Add.saveTimer f2 uuid now (Add.saveTimer f1 uuid now a)) =
    Add.ls (Add.saveTimer f2 uuid now a).
Proof.
  intros f1 f2 uuid now a G1 G2.
  destruct (saveTimer_valid f1 uuid now a G1) as [v1 [E1 _]].
  destruct (saveTimer_valid f2 uuid now a G2) as [v2 [E2 _]].
  unfold Add.saveTimer in *. fold (total_of f1) (total_of f2) in *.
  rewrite G1, G2 in *. cbn [Add.ls]. unfold Storage.set. apply insert_insert_eq.
Qed.

Lemma colliding_id_overwrites_witness :
  let f1 := {| Add.title_value := Some "Tea"%string;
               Add.hours_value := Some ""%string;
               Add.minutes_value := Some "5"%string;
               Add.seconds_value := Some ""%string |} in
  let f2 := {| Add.title_value := Some "Egg"%string;
               Add.hours_value := Some ""%string;
               Add.minutes_value := Some "4"%string;
               Add.seconds_value := Some ""%string |} in
  let a := {| Add.ls := ∅; Add.error := false; Add.calls := [] |} in
  Add.guard (total_of f1) = true /\ Add.guard (total_of f2) = true
  /\ Add.ls (Add.saveTimer f2 3 16 (Add.saveTimer f1 3 16 a)) =
     Add.ls (Add.saveTimer f2 3 16 a).
Proof.
  intros f1 f2 a.
  assert (G1 : Add.guard (total_of f1) = true) by (vm_compute; reflexivity).
  assert (G2 : Add.guard (total_of f2) = true) by (vm_compute; reflexivity).
  split; [exact G1|]. split; [exact G2|].
  exact (colliding_id_overwrites f1 f2 3 16 a G1 G2).
Defined.

(** X13.  Removing a timer through the dialog closes the dialog, asks for
    a refresh and reports it; in a store where every slot holds the record
    of its id, the refresh that follows lists the records listed before
    except the one with the removed id. *)
Theorem removed_timer_is_not_listed :
  forall (l : gmap string string) (i : Z) (n : nat),
    well_keyed l ->
    let a := Landing.deleteTimer (Landing.openDialog i (Landing.init l)) in
    let app := App.refresh
                 (3 * length (Storage.keys App.storage (Landing.ls a)) + 2 + n)
                 (App.init (Landing.ls a)) in
    Landing.dialogActive (Landing.state a) = false
    /\ Landing.calls a = [Landing.onRefresh;
                          Landing.onMessage "Timer successfully removed"]
    /\ forall v, In (JTimer v) (App.landingData app) <->
                 In (JTimer v) (fetched_from l) /\ id v <> i.
Proof.
  intros l i n W a app. split; [reflexivity|]. split; [reflexivity|].
  intros v. subst app. rewrite refresh_init. cbn [App.landingData].
  apply (fetched_delete l i v W).
Qed.

Lemma removed_timer_is_not_listed_witness :
  let tea := mkTimerData 17 300 "Tea" in
  let egg := mkTimerData 18 240 "Egg" in
  let l := Storage.set App.storage
             (Storage.set App.storage ∅ "17" (JTimer tea)) "18" (JTimer egg) in
  let a := Landing.deleteTimer (Landing.openDialog 17 (Landing.init l)) in
  well_keyed l
  /\ forall v, In (JTimer v) (App.landingData (App.refresh 5 (App.init (Landing.ls a))))
               <-> In (JTimer v) (fetched_from l) /\ id v <> 17.
Proof.
  intros tea egg l a.
  assert (W : well_keyed l).
  { apply (well_keyed_set _ egg), (well_keyed_set _ tea), well_keyed_empty. }
  split; [exact W|].
  exact (proj2 (proj2 (removed_timer_is_not_listed l 17 0 W))).
Defined.

(** X14.  Creating and removing keep the store well keyed: after
    [saveTimer] and after [deleteTimer] every listed slot that holds a
    record still holds the record whose id names it, as the empty store
    trivially does. *)
Theorem store_stays_well_keyed :
  forall (l : gmap string string),
    well_keyed l ->
    (forall (f : Add.form) (uuid now : Z) (e : bool) (cs : list Add.call),
        well_keyed (Add.ls (Add.saveTimer f uuid now
                              {| Add.ls := l; Add.error := e; Add.calls := cs |})))
    /\ (forall (st : Landing.State) (cs : list Landing.call),
        well_keyed (Landing.ls (Landing.deleteTimer
                                  {| Landing.ls := l; Landing.state := st;
                                     Landing.calls := cs |}))).
Proof.
  intros l W. split.
  - intros f uuid now e cs.
    destruct (Add.guard (total_of f)) eqn:G.
    + destruct (saveTimer_valid f uuid now
                  {| Add.ls := l; Add.error := e; Add.calls := cs |} G)
        as [v [E [Hi _]]].
      rewrite E. cbn [Add.ls]. rewrite <- Hi.
      change Add.storage with App.storage. apply well_keyed_set, W.
    + unfold Add.saveTimer. fold (total_of f). rewrite G. exact W.
  - intros st cs. cbn [Landing.deleteTimer Landing.cancelDialog Landing.ls].
    change Landing.storage with App.storage. apply well_keyed_delete, W.
Qed.

Lemma store_stays_well_keyed_witness :
  well_keyed ∅
  /\ well_keyed
       (Add.ls (Add.saveTimer
                  {| Add.title_value := None; Add.hours_value := Some "1"%string;
                     Add.minutes_value := None; Add.seconds_value := None |}
                  3 16 {| Add.ls := ∅; Add.error := false; Add.calls := [] |})).
Proof.
  split; [exact well_keyed_empty|].
  exact (proj1 (store_stays_well_keyed ∅ well_keyed_empty) _ 3 16 false []).
Defined.

(* ===================================================================== *)
(** * Refreshing twice                                                     *)
(* ===================================================================== *)

Section RefreshTwice.
Import App.

Lemma values_app (a b : list (option jsvalue)) :
  values (a ++ b) = values a ++ values b.
Proof.
  induction a as [|[v|] a IH]; simpl; [reflexivity| |exact IH].
  rewrite IH. reflexivity.
Qed.

(** Two [getLandingData()] calls made before any promise job runs. *)
Lemma overlapping_result (l : gmap string string) ld pub (n : nat) :
  let ks := Storage.keys storage l in
  let fetched := fetched_from l in
  drain (6 * length ks + 4 + n)
    (getLandingData (getLandingData
       {| ls := l; landingData := ld; published := pub; jobs := [] |})) =
  {| ls := l; landingData := fetched ++ fetched;
     published := pub ++ match ks with
                         | [] => [[]; []]
                         | _ => repeat (fetched ++ fetched) (2 * length fetched)
                         end;
     jobs := [] |}.
Proof.
  intros ks fetched. unfold getLandingData. cbn [ls landingData published jobs app].
  replace (6 * length ks + 4 + n)%nat
    with (S (S (S (S (length (ks ++ ks) + (length (ks ++ ks)
                      + (length (ks ++ ks) + n)))))))%nat
    by (rewrite length_app; lia).
  change (drain (S (S ?N)) {| ls := l; landingData := []; published := pub;
                              jobs := [keys_resume; keys_resume] |})
    with (drain N {| ls := l; landingData := []; published := pub;
                     jobs := [keys_then ks; keys_then ks] |}).
  subst fetched. unfold fetched_from. fold ks. clearbody ks.
  destruct ks as [|k ks'].
  - change (drain n {| ls := l; landingData := [];
                        published := (pub ++ [[]]) ++ [[]]; jobs := [] |} =
            {| ls := l; landingData := []; published := pub ++ [[]; []];
               jobs := [] |}).
    rewrite drain_idle, <- app_assoc. reflexivity.
  - set (ks := k :: ks').
    change (drain (S (S ?N)) {| ls := l; landingData := []; published := pub;
                                jobs := [keys_then ks; keys_then ks] |})
      with (drain N {| ls := l; landingData := []; published := pub;
                       jobs := List.map get_resume ks ++ List.map get_resume ks |}).
    rewrite <- List.map_app.
    rewrite <- (app_nil_r (List.map get_resume (ks ++ ks))), drain_gets.
    cbn [app].
    rewrite <- (List.map_map (Storage.get storage l) push_then).
    set (rs := List.map (Storage.get storage l) (ks ++ ks)).
    replace (length (ks ++ ks)) with (length rs) by apply length_map.
    rewrite <- (app_nil_r (List.map push_then rs)), drain_pushes.
    cbn [app].
    rewrite <- (List.map_map is_fulfilled setState_then).
    set (bs := List.map is_fulfilled rs).
    replace (length rs) with (length bs) by apply length_map.
    rewrite drain_setStates. unfold bs. rewrite count_fulfilled.
    unfold rs. rewrite List.map_app, values_app, length_app.
    replace (2 * length (values (List.map (Storage.get storage l) ks)))%nat
      with (length (values (List.map (Storage.get storage l) ks))
            + length (values (List.map (Storage.get storage l) ks)))%nat by lia.
    reflexivity.
Qed.

End RefreshTwice.

(** X15.  Two [getLandingData()] calls made in one turn, before the
    promise jobs of the first have run, share the array that the second
    has reset: every fetched record ends up in it twice, and each list
    published holds every record twice. *)
Theorem overlapping_refreshes_list_twice :
  forall (l : gmap string string) (ld : list jsvalue)
         (pub : list (list jsvalue)) (n : nat),
    let a := App.drain (6 * length (Storage.keys App.storage l) + 4 + n)
               (App.getLandingData (App.getLandingData
                  {| App.ls := l; App.landingData := ld;
                     App.published := pub; App.jobs := [] |})) in
    App.jobs a = []
    /\ App.landingData a = fetched_from l ++ fetched_from l
    /\ exists news,
         App.published a = pub ++ news
         /\ Forall (fun published_list =>
                      published_list = fetched_from l ++ fetched_from l) news.
Proof.
  intros l ld pub n. cbv zeta.
  pose proof (overlapping_result l ld pub n) as R. cbv zeta in R. rewrite R.
  cbn [App.jobs App.landingData App.published].
  split; [reflexivity|]. split; [reflexivity|].
  eexists. split; [reflexivity|].
  unfold fetched_from.
  destruct (Storage.keys App.storage l) as [|k ks].
  - repeat constructor.
  - apply Forall_forall. intros x Hx.
    apply list_elem_of_In, repeat_spec in Hx. exact Hx.
Qed.

(** X16.  A refresh made after an earlier one has run to its end starts
    from an empty array: whatever the array held, it ends up holding the
    fetched records once, and the same lists are published again. *)
Theorem refresh_is_repeatable :
  forall (l : gmap string string) (n m : nat),
    let fuel := (3 * length (Storage.keys App.storage l) + 2)%nat in
    let once := App.refresh (fuel + n) (App.init l) in
    let twice := App.refresh (fuel + m) once in
    App.landingData twice = App.landingData once
    /\ App.landingData once = fetched_from l
    /\ App.published twice = App.published once ++ App.published once.
Proof.
  intros l n m. cbv zeta. rewrite refresh_init.
  pose proof (refresh_result l (fetched_from l)
                (match Storage.keys App.storage l with
                 | [] => [[]]
                 | _ => repeat (fetched_from l) (length (fetched_from l))
                 end) m) as R.
  cbv zeta in R. rewrite R. cbn [App.landingData App.published].
  split; [reflexivity|]. split; reflexivity.
Qed.

(* ===================================================================== *)
(** * More on the timer runtime                                           *)
(* ===================================================================== *)

Section TimerMore.
Import Timer.

Variable p : Props.
Variable ti : string.

Lemma Inv_set_clock (c : Z) (s : t) :
  Inv p ti s -> Inv p ti (with_window (set_clock c (window s)) s).
Proof. intros [I1 I2 I3 I4 I5 I6]. constructor; simpl; auto. Qed.

(** Induction over the states a mounted timer can reach: a property that
    holds at mount and is kept by a click, by a stop, by the clock moving
    and by a timer firing holds in every reachable state. *)
Lemma reachable_ind (P : t -> Prop) :
  (forall now h, P (mount p (idle_window ti now h))) ->
  (forall s, Inv p ti s -> P s -> P (handleClick s)) ->
  (forall s, Inv p ti s -> P s -> P (stopTimer s)) ->
  (forall s c, Inv p ti s -> P s -> P (with_window (set_clock c (window s)) s)) ->
  (forall s h, Inv p ti s -> P s -> P (fire h s)) ->
  forall now h evs, P (run evs (mount p (idle_window ti now h))).
Proof.
  intros Hm Hc Hs Hk Hf now h evs.
  assert (F : forall hs s, Inv p ti s -> P s ->
                 P (fold_left (fun s h => fire h s) hs s)).
  { induction hs as [|x hs IHh]; intros s I Ps; [exact Ps|].
    simpl. apply IHh; [apply Inv_fire, I|apply Hf; assumption]. }
  assert (G : forall s, Inv p ti s /\ P s -> Inv p ti (run evs s) /\ P (run evs s)).
  { induction evs as [|e evs IH]; intros s [I Ps]; [split; assumption|].
    simpl. apply IH. destruct e as [| |ms]; simpl.
    - split; [apply Inv_handleClick, I|apply Hc; assumption].
    - split; [apply Inv_stopTimer, I|apply Hs; assumption].
    - clear IH. revert s I Ps. induction ms as [|n IHn]; intros s I Ps;
        [split; assumption|].
      simpl. apply IHn; unfold millisecond.
      + apply Inv_fires, Inv_set_clock, I.
      + apply F; [apply Inv_set_clock, I|apply Hk; assumption]. }
  apply G. split; [apply Inv_mount|apply Hm].
Qed.

Lemma state_tick (s : t) :
  state (tick s) = {| paused := paused (state s); stopped := stopped (state s);
                      state_time := Z.max (state_time (state s) - 1) 0 |}.
Proof.
  unfold tick. destruct (state_time (state (countDown s)) =? 0);
    rewrite countDown_eq; reflexivity.
Qed.

Lemma props_tick (s : t) : props (tick s) = props s.
Proof.
  unfold tick. destruct (state_time (state (countDown s)) =? 0);
    rewrite countDown_eq; reflexivity.
Qed.

(** What firing does to the component: nothing, a tick, or a stop. *)
Lemma fire_cases (h : nat) (s : t) :
  Inv p ti s ->
  fire h s = s
  \/ (active s = true /\ fire h s = tick (with_window (rearm h (window s)) s))
  \/ (fire h s = stopTimer (with_window (clear h (window s)) s)
      /\ exists q, In q (timers (window s)) /\ handle q = h /\ what q = Timeout).
Proof.
  intros I. unfold fire.
  destruct (find _ _) as [q|] eqn:F; [|left; reflexivity].
  apply find_some in F. destruct F as [Hin Hh]. apply Nat.eqb_eq in Hh.
  pose proof (inv_timers _ _ _ I) as T. rewrite Forall_forall in T.
  destruct (T q (proj2 (list_elem_of_In _ _) Hin)) as [_ Hk].
  destruct (what q) eqn:W.
  - right. left. split; [apply Hk|reflexivity].
  - right. right. split; [reflexivity|]. exists q. auto.
Qed.

(** The time left stays between 0 and the duration. *)
Lemma time_in_bounds (now : Z) (h : nat) (evs : list event) :
  0 <= props_time p ->
  let s := run evs (mount p (idle_window ti now h)) in
  0 <= state_time (state s) <= props_time p.
Proof.
  intros Hp.
  apply (reachable_ind (fun s => 0 <= state_time (state s) <= props_time p)).
  - intros. simpl. lia.
  - intros s I H. unfold handleClick.
    destruct (paused (state s) || stopped (state s)); simpl; exact H.
  - intros s I H. simpl. rewrite (inv_default _ _ _ I). lia.
  - intros s c I H. exact H.
  - intros s x I H. destruct (fire_cases x s I) as [E|[[_ E]|[E _]]]; rewrite E.
    + exact H.
    + rewrite state_tick. simpl. lia.
    + simpl. rewrite (inv_default _ _ _ I). lia.
Qed.

Lemma filter_interval_timeouts (l : list pending) :
  List.filter is_interval (List.filter is_timeout l) = [].
Proof.
  induction l as [|q l IH]; [reflexivity|]. simpl.
  destruct (is_timeout q) eqn:E; [|exact IH].
  simpl. unfold is_interval. rewrite E. exact IH.
Qed.

Lemma filter_interval_rearm (h : nat) (w : Window) :
  length (List.filter is_interval (timers (rearm h w))) =
  length (List.filter is_interval (timers w)).
Proof.
  unfold rearm. simpl. induction (timers w) as [|q l IH]; [reflexivity|].
  simpl. assert (E : is_interval (if (handle q =? h)%nat
                     then {| handle := handle q; due := due q + 1000; what := what q |}
                     else q) = is_interval q)
    by (destruct (handle q =? h)%nat; reflexivity).
  rewrite E. destruct (is_interval q); simpl; rewrite IH; reflexivity.
Qed.

Lemma timers_tick (s : t) :
  List.filter is_interval (timers (window (tick s))) =
  List.filter is_interval (timers (window s)).
Proof.
  unfold tick. destruct (state_time (state (countDown s)) =? 0);
    rewrite countDown_eq; simpl; [|reflexivity].
  rewrite List.filter_app. simpl. apply app_nil_r.
Qed.

Lemma active_tick (s : t) : active (tick s) = active s.
Proof. unfold active. rewrite state_tick. reflexivity. Qed.

(** One interval is armed while the timer is running, none while it is
    not. *)
Lemma one_interval (now : Z) (h : nat) (evs : list event) :
  let s := run evs (mount p (idle_window ti now h)) in
  length (List.filter is_interval (timers (window s))) =
  if active s then 1%nat else 0%nat.
Proof.
  apply (reachable_ind
           (fun s => length (List.filter is_interval (timers (window s))) =
                     if active s then 1%nat else 0%nat)).
  - intros. reflexivity.
  - intros s I H. unfold handleClick.
    destruct (paused (state s) || stopped (state s)) eqn:E.
    + assert (A : active s = false)
        by (unfold active; destruct (paused (state s)), (stopped (state s));
            simpl in *; congruence).
      rewrite A in H. simpl. rewrite List.filter_app, length_app, H. reflexivity.
    + pose proof (clear_interval p ti s I) as C. simpl in *.
      rewrite C, filter_interval_timeouts. reflexivity.
  - intros s I H. pose proof (clear_interval p ti s I) as C. simpl in *.
    rewrite C, filter_interval_timeouts. unfold active. simpl.
    rewrite andb_false_r. reflexivity.
  - intros s c I H. exact H.
  - intros s x I H. destruct (fire_cases x s I) as [E|[[A E]|[E _]]]; rewrite E.
    + exact H.
    + rewrite timers_tick, active_tick. simpl window.
      rewrite filter_interval_rearm. exact H.
    + pose proof (clear_interval p ti _ (Inv_clear p ti x s I)) as C.
      simpl in *. rewrite C, filter_interval_timeouts. unfold active. simpl.
      rewrite andb_false_r. reflexivity.
Qed.

(** While the timer is not running, time passing does not tick: the time
    left stays, or is the full duration after a grace-delay stop. *)
Lemma idle_elapse (r : Z) (n : nat) (s : t) :
  Inv p ti s -> active s = false ->
  (state_time (state s) = r \/ state_time (state s) = props_time p) ->
  active (elapse n s) = false
  /\ (state_time (state (elapse n s)) = r
      \/ state_time (state (elapse n s)) = props_time p).
Proof.
  revert s. induction n as [|n IH]; intros s I A H; [split; assumption|].
  simpl. unfold millisecond.
  set (s1 := with_window (set_clock (clock (window s) + 1) (window s)) s).
  assert (Q : Inv p ti s1 /\ active s1 = false
              /\ (state_time (state s1) = r \/ state_time (state s1) = props_time p))
    by (split; [apply Inv_set_clock, I|split; assumption]).
  generalize (List.map handle
                (List.filter (fun q => due q =? clock (window s1))
                             (timers (window s1)))).
  clearbody s1. clear s I A H. revert s1 Q.
  intros s1 Q hs. revert s1 Q.
  induction hs as [|x hs IHh]; intros s1 [I [A H]]; simpl.
  - apply IH; assumption.
  - apply IHh. split; [apply Inv_fire, I|].
    destruct (fire_cases x s1 I) as [E|[[A' E]|[E _]]]; rewrite E.
    + split; assumption.
    + congruence.
    + split; [unfold active; simpl; apply andb_false_r|].
      right. simpl. apply (inv_default _ _ _ I).
Qed.

End TimerMore.

Section Countdown.
Import Timer.

Variable p : Props.
Variable ti : string.

Lemma elapse_add (a b : nat) (s : t) : elapse (a + b) s = elapse b (elapse a s).
Proof. revert s. induction a as [|a IH]; intros s; [reflexivity|]. simpl. apply IH. Qed.

Lemma set_clock_same (s : t) (c : Z) :
  c = clock (window s) -> with_window (set_clock c (window s)) s = s.
Proof. intros ->. destruct s as [? ? ? ? ? ? []]. reflexivity. Qed.

(** While no armed timer comes due, only the clock moves. *)
Lemma elapse_quiet (n : nat) (s : t) :
  Forall (fun q => clock (window s) + Z.of_nat n < due q) (timers (window s)) ->
  elapse n s = with_window (set_clock (clock (window s) + Z.of_nat n) (window s)) s.
Proof.
  revert s. induction n as [|n IH]; intros s H.
  - simpl. symmetry. apply set_clock_same. lia.
  - simpl elapse.
    assert (M : millisecond s =
                with_window (set_clock (clock (window s) + 1) (window s)) s).
    { unfold millisecond. simpl.
      replace (List.filter (fun q => due q =? clock (window s) + 1)
                           (timers (window s))) with (@nil pending); [reflexivity|].
      symmetry. induction H as [|q l Hq _ IHl]; [reflexivity|]. simpl.
      destruct (Z.eqb_spec (due q) (clock (window s) + 1)); [lia|exact IHl]. }
    rewrite M, IH.
    + simpl. unfold with_window, set_clock. simpl. do 2 f_equal. lia.
    + simpl. eapply Forall_impl; [exact H|]. simpl. intros q Hq. lia.
Qed.

Lemma ticking_start (now : Z) (h : nat) :
  ticking p ti (props_time p) now (handleClick (mount p (idle_window ti now h))).
Proof.
  split; [apply Inv_handleClick, Inv_mount|]. repeat split.
Qed.

(** The millisecond in which the only armed timer comes due. *)
Lemma millisecond_single (q : pending) (s : t) :
  timers (window s) = [q] -> due q = clock (window s) + 1 ->
  millisecond s =
  fire (handle q) (with_window (set_clock (clock (window s) + 1) (window s)) s).
Proof.
  intros Ht Hd. unfold millisecond. cbn [window with_window set_clock clock timers].
  rewrite Ht. cbn [List.filter]. rewrite Hd, Z.eqb_refl. reflexivity.
Qed.

Lemma fire_interval (h : nat) (d : Z) (s : t) :
  timers (window s) = [{| handle := h; due := d; what := Interval |}] ->
  fire h s = tick (with_window (rearm h (window s)) s).
Proof.
  intros Ht. unfold fire. rewrite Ht. cbn [find handle what].
  rewrite Nat.eqb_refl. reflexivity.
Qed.

(** One second of a running timer is one tick. *)
Lemma one_second (r c : Z) (s : t) :
  ticking p ti r c s ->
  elapse 1000 s =
  tick (with_window
          (set_timers [{| handle := interval s; due := c + 2000; what := Interval |}]
                      (set_clock (c + 1000) (window s))) s).
Proof.
  intros [I [Hs [Hc Ht]]].
  change 1000%nat with (999 + 1)%nat. rewrite elapse_add, (elapse_quiet 999 s).
  2:{ rewrite Ht, Hc. repeat constructor. simpl. lia. }
  cbn [elapse].
  rewrite (millisecond_single {| handle := interval s; due := c + 1000; what := Interval |}).
  2:{ exact Ht. }
  2:{ cbn [window with_window set_clock clock due]. rewrite Hc. lia. }
  cbn [handle].
  rewrite (fire_interval (interval s) (c + 1000)) by exact Ht.
  f_equal. destruct s as [pr st dt dom el iv [tit clk nh tms]].
  cbn in *. subst. unfold with_window, rearm, set_timers, set_clock. cbn.
  rewrite Nat.eqb_refl.
  replace (c + Z.of_nat 999 + 1) with (c + 1000) by lia.
  replace (c + 1000 + 1000) with (c + 2000) by lia. reflexivity.
Qed.

Lemma Inv_ticked (r c : Z) (s : t) :
  ticking p ti r c s -> Inv p ti (elapse 1000 s).
Proof. intros [I _]. apply Inv_elapse, I. Qed.

(** With more than a second left, a second later the timer is running
    still, with one second less and its title up to date. *)
Lemma ticking_second (r c : Z) (s : t) :
  ticking p ti r c s -> 1 < r ->
  ticking p ti (r - 1) (c + 1000) (elapse 1000 s)
  /\ updateTitle (elapse 1000 s) = elapse 1000 s.
Proof.
  intros T Hr. pose proof (Inv_ticked r c s T) as I'.
  rewrite (one_second r c s T) in *. destruct T as [I [Hs [Hc Ht]]].
  destruct s as [pr st dt dom el iv [tit clk nh tms]]. cbn in Hs, Hc, Ht. subst.
  unfold tick. rewrite countDown_eq. cbn.
  destruct (Z.eqb_spec (Z.max (r - 1) 0) 0) as [E|E]; [lia|].
  rewrite Z.max_l by lia.
  split.
  - split; [|repeat split].
    + unfold tick in I'. rewrite countDown_eq in I'. cbn in I'.
      destruct (Z.eqb_spec (Z.max (r - 1) 0) 0) as [E'|E']; [lia|].
      rewrite Z.max_l in I' by lia. exact I'.
    + cbn. replace (c + 1000 + 1000) with (c + 2000) by lia. reflexivity.
  - reflexivity.
Qed.

Lemma ticking_ext (r r' c c' : Z) (s : t) :
  ticking p ti r c s -> r = r' -> c = c' -> ticking p ti r' c' s.
Proof. intros T -> ->. exact T. Qed.

(** [k] seconds after its start a timer with more than [k] seconds left
    is running still, with [k] seconds less. *)
Lemma countdown (k : nat) (r c : Z) (s : t) :
  ticking p ti r c s -> Z.of_nat k < r ->
  ticking p ti (r - Z.of_nat k) (c + 1000 * Z.of_nat k) (elapse (1000 * k) s)
  /\ ((0 < k)%nat -> updateTitle (elapse (1000 * k) s) = elapse (1000 * k) s).
Proof.
  intros T. induction k as [|k IH]; intros Hk.
  - split; [|lia]. rewrite Nat.mul_0_r. cbn [elapse].
    apply (ticking_ext r _ c _ s T); lia.
  - rewrite Nat.mul_succ_r, elapse_add.
    destruct IH as [T' _]; [lia|].
    destruct (ticking_second _ _ _ T') as [T'' U]; [lia|].
    split; [|intros _; exact U].
    eapply ticking_ext; [exact T''|lia|lia].
Qed.

(** The last second and the grace delay: the tick takes the time left
    to 0 with the timer running still; 160 ms later the timer is stopped,
    back at its duration, the title as it was, nothing armed. *)
Lemma ticking_finish (c : Z) (s : t) :
  ticking p ti 1 c s ->
  state (elapse 1000 s) = {| paused := false; stopped := false; state_time := 0 |}
  /\ state (elapse 160 (elapse 1000 s)) =
       {| paused := false; stopped := true; state_time := props_time p |}
  /\ timers (window (elapse 160 (elapse 1000 s))) = []
  /\ document_title (window (elapse 160 (elapse 1000 s))) = ti
  /\ clock (window (elapse 160 (elapse 1000 s))) = c + 1160.
Proof.
  intros T. rewrite (one_second 1 c s T). destruct T as [I [Hs [Hc Ht]]].
  pose proof (inv_default _ _ _ I) as Hd. pose proof (inv_dom _ _ _ I) as Ho.
  pose proof (inv_interval _ _ _ I) as Hi.
  destruct s as [pr st dt dom el iv [tit clk nh tms]]. cbn in Hs, Hc, Ht, Hd, Ho, Hi.
  subst. unfold tick. rewrite countDown_eq.
  cbn -[elapse]. change (Z.max (1 - 1) 0) with 0. cbn -[elapse].
  split; [reflexivity|].
  match goal with
  | |- context [elapse 160 ?x] => set (g := x)
  end.
  change 160%nat with (159 + 1)%nat. rewrite elapse_add, (elapse_quiet 159 g).
  2:{ subst g. cbn. repeat constructor; cbn; lia. }
  subst g. cbn [elapse]. unfold millisecond. cbn.
  destruct (Z.eqb_spec (c + 2000) (c + 1000 + Z.of_nat 159 + 1)) as [E|_]; [lia|].
  destruct (Z.eqb_spec (c + 1000 + 160) (c + 1000 + Z.of_nat 159 + 1)) as [_|E]; [|lia].
  cbn. unfold fire. cbn.
  assert (N1 : (iv =? nh)%nat = false) by (apply Nat.eqb_neq; lia).
  rewrite N1, Nat.eqb_refl. cbn. rewrite N1, Nat.eqb_refl. cbn.
  rewrite Nat.eqb_refl. cbn.
  repeat split. lia.
Qed.

End Countdown.

(** X17.  In every state a mounted timer can reach, the time left is
    between 0 and the duration it was given, the duration not being
    negative. *)
Theorem remaining_stays_in_bounds :
  forall (p : Timer.Props) (ti : string) (now : Z) (h : nat)
         (evs : list Timer.event),
    0 <= Timer.props_time p ->
    let s := Timer.run evs (Timer.mount p (Timer.idle_window ti now h)) in
    0 <= Timer.state_time (Timer.state s) <= Timer.props_time p.
Proof. intros p ti now h evs Hp. apply time_in_bounds, Hp. Qed.

Lemma remaining_stays_in_bounds_witness :
  let p := {| Timer.props_time := 2; Timer.props_title := Some "Tea"%string |} in
  let s := Timer.run [Timer.Click; Timer.Wait 1500; Timer.Click; Timer.Wait 700;
                      Timer.Click; Timer.Wait 1100]
                     (Timer.mount p (Timer.idle_window "Timers" 0 0)) in
  0 <= Timer.props_time p
  /\ 0 <= Timer.state_time (Timer.state s) <= Timer.props_time p.
Proof.
  intros p s. assert (H : 0 <= Timer.props_time p) by (simpl; lia).
  split; [exact H|].
  exact (remaining_stays_in_bounds p "Timers" 0 0%nat
           [Timer.Click; Timer.Wait 1500; Timer.Click; Timer.Wait 700;
            Timer.Click; Timer.Wait 1100] H).
Defined.

(** X18.  Ticks do not pile up: in every reachable state exactly one
    interval is armed while the timer is running and none while it is
    not; and the play/pause button offers to pause exactly while it is
    running. *)
Theorem one_tick_while_running :
  forall (p : Timer.Props) (ti : string) (now : Z) (h : nat)
         (evs : list Timer.event),
    let s := Timer.run evs (Timer.mount p (Timer.idle_window ti now h)) in
    length (List.filter is_interval (Timer.timers (Timer.window s))) =
      (if Timer.active s then 1%nat else 0%nat)
    /\ TimerView.playPauseLabel s =
         (if Timer.active s then "Pause timer" else "Start timer")%string
    /\ TimerView.playPauseIcon s =
         (if Timer.active s then "pause" else "play")%string.
Proof.
  intros p ti now h evs s. split; [apply one_interval|].
  unfold TimerView.playPauseLabel, TimerView.playPauseIcon, Timer.active.
  destruct (Timer.paused (Timer.state s)), (Timer.stopped (Timer.state s));
    split; reflexivity.
Qed.

(** X19.  A timer that is paused or stopped does not count down: however
    long one waits it stays not running, and its time left is what it
    was, or the full duration when a grace-delay stop came due
    meanwhile. *)
Theorem idle_timer_does_not_tick :
  forall (p : Timer.Props) (ti : string) (now : Z) (h : nat)
         (evs : list Timer.event) (n : nat),
    let s := Timer.run evs (Timer.mount p (Timer.idle_window ti now h)) in
    Timer.active s = false ->
    Timer.active (Timer.elapse n s) = false
    /\ (Timer.state_time (Timer.state (Timer.elapse n s)) =
          Timer.state_time (Timer.state s)
        \/ Timer.state_time (Timer.state (Timer.elapse n s)) = Timer.props_time p).
Proof.
  intros p ti now h evs n s A.
  apply (idle_elapse p ti); [apply Inv_reachable|exact A|left; reflexivity].
Qed.

Lemma idle_timer_does_not_tick_witness :
  let p := {| Timer.props_time := 10; Timer.props_title := Some "Tea"%string |} in
  let evs := [Timer.Click; Timer.Wait 2500; Timer.Click] in
  let s := Timer.run evs (Timer.mount p (Timer.idle_window "Timers" 0 0)) in
  Timer.active s = false
  /\ Timer.state_time (Timer.state s) = 8
  /\ Timer.active (Timer.elapse 5000 s) = false
  /\ (Timer.state_time (Timer.state (Timer.elapse 5000 s)) =
        Timer.state_time (Timer.state s)
      \/ Timer.state_time (Timer.state (Timer.elapse 5000 s)) = Timer.props_time p).
Proof.
  intros p evs s.
  assert (A : Timer.active s = false) by (vm_compute; reflexivity).
  split; [exact A|]. split; [vm_compute; reflexivity|].
  exact (idle_timer_does_not_tick p "Timers" 0 0%nat evs 5000 A).
Defined.

(** X20.  A timer that is started and left alone counts the seconds:
    [k] seconds after the click, with more than [k] seconds to go, it is
    running with [k] seconds less, its next tick armed for a second later
    and nothing else armed; and from the first tick on the document title
    shows that time. *)
Theorem started_timer_counts_seconds :
  forall (p : Timer.Props) (ti : string) (now : Z) (h k : nat),
    Z.of_nat k < Timer.props_time p ->
    let s := Timer.run [Timer.Click; Timer.Wait (1000 * k)]
                       (Timer.mount p (Timer.idle_window ti now h)) in
    Timer.state_time (Timer.state s) = Timer.props_time p - Z.of_nat k
    /\ Timer.phase s = Timer.Running
    /\ Timer.timers (Timer.window s) =
         [{| Timer.handle := Timer.interval s;
             Timer.due := now + 1000 * Z.of_nat k + 1000;
             Timer.what := Timer.Interval |}]
    /\ ((0 < k)%nat -> Timer.updateTitle s = s).
Proof.
  intros p ti now h k Hk s.
  destruct (countdown p ti k _ _ _ (ticking_start p ti now h) Hk)
    as [[_ [Hs [_ Ht]]] U].
  change (Timer.elapse (1000 * k)
            (Timer.handleClick (Timer.mount p (Timer.idle_window ti now h))))
    with s in *.
  split; [rewrite Hs; reflexivity|]. split; [|split; [exact Ht|exact U]].
  unfold Timer.phase. rewrite Hs. reflexivity.
Qed.

Lemma started_timer_counts_seconds_witness :
  let p := {| Timer.props_time := 300; Timer.props_title := Some "Tea"%string |} in
  let s := Timer.run [Timer.Click; Timer.Wait (1000 * 2)]
                     (Timer.mount p (Timer.idle_window "Timers" 0 0)) in
  Z.of_nat 2 < Timer.props_time p
  /\ Timer.state_time (Timer.state s) = 298
  /\ Timer.phase s = Timer.Running.
Proof.
  intros p s. assert (H : Z.of_nat 2 < Timer.props_time p) by (simpl; lia).
  split; [exact H|].
  destruct (started_timer_counts_seconds p "Timers" 0 0%nat 2%nat H) as [H1 [H2 _]].
  split; [exact H1|exact H2].
Defined.

(** X21.  A timer of [n + 1] seconds that is started and left alone
    completes: after [n + 1] seconds it shows 0 and is running still, and
    160 ms later it is stopped, back at its full duration, the document
    title as it was at mount, and no timer armed. *)
Theorem started_timer_completes :
  forall (p : Timer.Props) (ti : string) (now : Z) (h n : nat),
    Timer.props_time p = Z.of_nat (S n) ->
    let s0 := Timer.mount p (Timer.idle_window ti now h) in
    let at_zero := Timer.run [Timer.Click; Timer.Wait (1000 * S n)] s0 in
    let done := Timer.run [Timer.Click; Timer.Wait (1000 * S n); Timer.Wait 160] s0 in
    Timer.state_time (Timer.state at_zero) = 0
    /\ Timer.phase at_zero = Timer.Running
    /\ Timer.phase done = Timer.Stopped
    /\ Timer.state_time (Timer.state done) = Timer.props_time p
    /\ Timer.document_title (Timer.window done) = ti
    /\ Timer.timers (Timer.window done) = [].
Proof.
  intros p ti now h n Hp s0 at_zero done.
  assert (Hn : Z.of_nat n < Timer.props_time p) by lia.
  destruct (countdown p ti n _ _ _ (ticking_start p ti now h) Hn) as [T _].
  assert (T1 : ticking p ti 1 (now + 1000 * Z.of_nat n)
                 (Timer.elapse (1000 * n) (Timer.handleClick s0))).
  { apply (ticking_ext p ti _ 1 _ _ _ T); [lia|reflexivity]. }
  destruct (ticking_finish p ti _ _ T1) as [H1 [H2 [H3 [H4 _]]]].
  assert (E1 : at_zero =
               Timer.elapse 1000 (Timer.elapse (1000 * n) (Timer.handleClick s0))).
  { subst at_zero. cbn [Timer.run fold_left Timer.step].
    rewrite Nat.mul_succ_r, elapse_add. reflexivity. }
  assert (E2 : done = Timer.elapse 160 at_zero) by reflexivity.
  rewrite E2, E1. unfold Timer.phase. rewrite H1, H2, H3, H4.
  repeat split.
Qed.

Lemma started_timer_completes_witness :
  let p := {| Timer.props_time := 3; Timer.props_title := Some "Tea"%string |} in
  let s0 := Timer.mount p (Timer.idle_window "Timers" 0 0) in
  Timer.props_time p = Z.of_nat 3
  /\ Timer.phase (Timer.run [Timer.Click; Timer.Wait (1000 * 3); Timer.Wait 160] s0)
       = Timer.Stopped
  /\ Timer.state_time
       (Timer.state (Timer.run [Timer.Click; Timer.Wait (1000 * 3); Timer.Wait 160] s0))
       = 3.
Proof.
  intros p s0. assert (H : Timer.props_time p = Z.of_nat 3) by reflexivity.
  split; [exact H|].
  destruct (started_timer_completes p "Timers" 0 0%nat 2%nat H)
    as [_ [_ [H3 [H4 _]]]].
  split; [exact H3|exact H4].
Defined.

(* ===================================================================== *)
(** * helpers: [debounce]                                                 *)
(* ===================================================================== *)

Section DebounceFacts.
Import Debounce.

Variable A : Type.
Variable timeout : nat.

Lemma elapse_wait (n : nat) (s : t A) (last : option (A * nat)) :
  waiting last s ->
  match last with
  | Some (_, d) => (clock s + n < d)%nat
  | None => True
  end ->
  waiting last (elapse n s) /\ clock (elapse n s) = (clock s + n)%nat.
Proof.
  revert s. induction n as [|n IH]; intros s W H.
  - split; [exact W|]. simpl. lia.
  - simpl elapse.
    assert (M : millisecond s =
                {| timer := timer s; clock := S (clock s);
                   next_handle := next_handle s; timers := timers s;
                   called := called s |}).
    { unfold millisecond. cbn [timers clock].
      destruct W as [_ [_ W]]. destruct last as [[a d]|].
      - destruct W as [h [_ Ht]]. rewrite Ht. cbn [List.filter due].
        destruct (Nat.leb_spec d (S (clock s))); [lia|reflexivity].
      - destruct W as [_ Ht]. rewrite Ht. reflexivity. }
    rewrite M. destruct (IH {| timer := timer s; clock := S (clock s);
                              next_handle := next_handle s; timers := timers s;
                              called := called s |}) as [W' C'].
    + exact W.
    + destruct last as [[a d]|]; [cbn [clock]; lia|exact I].
    + split; [exact W'|]. rewrite C'. cbn [clock]. lia.
Qed.

Lemma call_waiting (a : A) (s : t A) (last : option (A * nat)) :
  waiting last s ->
  waiting (Some (a, (clock s + timeout)%nat)) (debouncedFunc timeout a s)
  /\ clock (debouncedFunc timeout a s) = clock s.
Proof.
  intros [Hc [[m Hm] W]]. destruct last as [[b d]|].
  - destruct W as [h [Ht Hl]]. unfold debouncedFunc. rewrite Ht.
    unfold clearTimeout. cbn. rewrite Hl. cbn. rewrite Nat.eqb_refl. cbn.
    rewrite Hm. split; [|reflexivity].
    split; [exact Hc|]. split; [eauto|]. exists m. split; reflexivity.
  - destruct W as [Ht Hl]. unfold debouncedFunc. rewrite Ht. cbn.
    rewrite Hl, Hm. split; [|reflexivity].
    split; [exact Hc|]. split; [eauto|]. exists m. split; reflexivity.
Qed.

(** After a burst of calls, each made less than [timeout] after the one
    before, only the timeout of the last call is armed. *)
Lemma burst_waiting (l : list (nat * A)) :
  forall (s : t A) (last : option (A * nat)) (g : nat) (a : A),
    waiting last s ->
    match last with
    | Some (_, d) => d = (clock s + timeout)%nat
    | None => True
    end ->
    Forall (fun x => (fst x < timeout)%nat) (l ++ [(g, a)]) ->
    let s' := burst timeout (l ++ [(g, a)]) s in
    waiting (Some (a, (clock s' + timeout)%nat)) s'.
Proof.
  induction l as [|[g0 a0] l IH]; intros s last g a W D F.
  - cbn [app burst]. apply Forall_cons_1 in F as [Hg _]. cbn [fst] in Hg.
    destruct (elapse_wait g s last W) as [W' C'].
    { destruct last as [[b d]|]; [lia|exact I]. }
    destruct (call_waiting a _ _ W') as [W'' C'']. rewrite C''. exact W''.
  - cbn [app burst]. apply Forall_cons_1 in F as [Hg F]. cbn [fst] in Hg.
    destruct (elapse_wait g0 s last W) as [W' C'].
    { destruct last as [[b d]|]; [lia|exact I]. }
    destruct (call_waiting a0 _ _ W') as [W'' C''].
    apply (IH _ _ g a W''); [rewrite C''; reflexivity|exact F].
Qed.

(** When the armed timeout comes due, [func] is called with its
    arguments and nothing stays armed. *)
Lemma elapse_last (n : nat) (a : A) (s : t A) :
  waiting (Some (a, (clock s + (n + 1))%nat)) s ->
  called (elapse (n + 1) s) = [a] /\ timers (elapse (n + 1) s) = [].
Proof.
  intros W.
  assert (EA : forall x y (u : t A), elapse (x + y) u = elapse y (elapse x u)).
  { induction x as [|x IHx]; intros y u; [reflexivity|]. simpl. apply IHx. }
  rewrite EA. destruct (elapse_wait n s _ W) as [[Hc [_ [h [_ Ht]]]] C]; [lia|].
  destruct (elapse n s) as [tm ck nh ts cl] eqn:ES. cbn in Hc, Ht, C. subst.
  cbn [elapse]. unfold millisecond. cbn.
  destruct (Nat.leb_spec (clock s + (n + 1)) (S (clock s + n))); [|lia].
  cbn. unfold fire. cbn.
  assert (R : (h =? h)%nat = true) by apply Nat.eqb_refl.
  rewrite !R. cbn. split; reflexivity.
Qed.

Lemma elapse_due (a : A) (s : t A) :
  (0 < timeout)%nat ->
  waiting (Some (a, (clock s + timeout)%nat)) s ->
  called (elapse timeout s) = [a] /\ timers (elapse timeout s) = [].
Proof.
  intros Hp. destruct (Nat.lt_exists_pred 0 timeout Hp) as [n [E _]].
  assert (E' : timeout = (n + 1)%nat) by lia. rewrite E'. apply elapse_last.
Qed.

End DebounceFacts.

(** X22.  A debounced function called in a burst, each call less than
    [timeout] ms after the one before, calls [func] once: nothing while
    the burst lasts, and [timeout] ms after the last call once, with the
    arguments of that last call; nothing stays armed. *)
Theorem debounce_calls_once_with_last_args :
  forall (A : Type) (timeout now h : nat) (l : list (nat * A)) (g : nat) (a : A),
    (0 < timeout)%nat ->
    Forall (fun x => (fst x < timeout)%nat) (l ++ [(g, a)]) ->
    let s := Debounce.burst timeout (l ++ [(g, a)]) (Debounce.debounce now h) in
    Debounce.called s = []
    /\ Debounce.called (Debounce.elapse timeout s) = [a]
    /\ Debounce.timers (Debounce.elapse timeout s) = [].
Proof.
  intros A timeout now h l g a Hp F s.
  assert (W0 : @waiting A None (Debounce.debounce now h)).
  { split; [reflexivity|]. split; [eexists; reflexivity|split; reflexivity]. }
  pose proof (burst_waiting A timeout l _ None g a W0 I F) as W. cbv zeta in W.
  fold s in W. split; [apply W|]. apply (elapse_due A timeout a s Hp W).
Qed.

Lemma debounce_calls_once_with_last_args_witness :
  let l := [(0, "resize 1"); (20, "resize 2")]%nat%string in
  let s := Debounce.burst 60 (l ++ [(59%nat, "resize 3"%string)]) (Debounce.debounce 0 0) in
  (0 < 60)%nat
  /\ Forall (fun x => (fst x < 60)%nat) (l ++ [(59%nat, "resize 3"%string)])
  /\ Debounce.called s = []
  /\ Debounce.called (Debounce.elapse 60 s) = ["resize 3"%string].
Proof.
  intros l s.
  assert (Hp : (0 < 60)%nat) by lia.
  assert (F : Forall (fun x => (fst x < 60)%nat) (l ++ [(59%nat, "resize 3"%string)]))
    by (repeat constructor; simpl; lia).
  split; [exact Hp|]. split; [exact F|].
  destruct (debounce_calls_once_with_last_args string 60 0 0 l 59%nat
              "resize 3"%string Hp F) as [H1 [H2 _]].
  split; [exact H1|exact H2].
Defined.

(* ===================================================================== *)
(** * helpers: [getScrollbarParent]                                       *)
(* ===================================================================== *)

Section ScrollFacts.
Import Scroll.

Lemma rec_nearest (n : node) :
  attached n = true ->
  exists r pre,
    getScrollbarParent_rec n = Some r
    /\ chain n = pre ++ chain r
    /\ (is_body r = true \/ scrolls r = true)
    /\ Forall (fun m => is_body m = false /\ scrolls m = false) pre.
Proof.
  induction n as [e|e parent IH|e]; intros H; simpl in H.
  - exists (Body e), []. repeat split; auto.
  - destruct (hasScrollbar e true || hasScrollbar e false) eqn:S.
    + exists (Inner e parent), []. cbn [getScrollbarParent_rec]. rewrite S.
      split; [reflexivity|]. split; [reflexivity|]. split; [right; exact S|constructor].
    + destruct (IH H) as [r [pre [E [C [B F]]]]].
      exists r, (Inner e parent :: pre). cbn [getScrollbarParent_rec]. rewrite S.
      split; [exact E|]. split; [cbn [chain app]; rewrite C; reflexivity|].
      split; [exact B|].
      constructor; [split; [reflexivity|exact S]|exact F].
  - discriminate.
Qed.

Lemma rec_detached (n : node) :
  attached n = false -> Forall (fun m => scrolls m = false) (chain n) ->
  getScrollbarParent_rec n = None.
Proof.
  induction n as [e|e parent IH|e]; intros H F; simpl in H.
  - discriminate.
  - cbn [chain] in F. apply Forall_cons_1 in F as [S F].
    unfold scrolls in S. cbn [element] in S. cbn [getScrollbarParent_rec].
    rewrite S. apply IH; assumption.
  - cbn [chain] in F. apply Forall_cons_1 in F as [S _].
    unfold scrolls in S. cbn [element] in S. cbn [getScrollbarParent_rec].
    rewrite S. reflexivity.
Qed.

End ScrollFacts.

(** X23.  From an element under the body [getScrollbarParent] always
    returns, and what it returns is the nearest candidate up the chain of
    parents: the element or an ancestor that is the body or has a
    scrollbar, with nothing that scrolls and no body in between.  The
    starting element alone can be passed over although it scrolls, when it
    matches [ignoreElem]; the selector is not applied to its ancestors. *)
Theorem scrollbar_parent_is_nearest :
  forall (elem : Scroll.node) (ignoreElem : option string),
    Scroll.attached elem = true ->
    exists r pre,
      Scroll.getScrollbarParent elem ignoreElem = Some r
      /\ Scroll.chain elem = pre ++ Scroll.chain r
      /\ (Scroll.is_body r = true \/ Scroll.scrolls r = true)
      /\ Forall (fun m => Scroll.is_body m = false
                          /\ (Scroll.scrolls m = false
                              \/ (m = elem /\ skipped elem ignoreElem = true))) pre.
Proof.
  intros elem ign H.
  assert (R : forall n, Scroll.attached n = true ->
              exists r pre,
                Scroll.getScrollbarParent_rec n = Some r
                /\ Scroll.chain n = pre ++ Scroll.chain r
                /\ (Scroll.is_body r = true \/ Scroll.scrolls r = true)
                /\ Forall (fun m => Scroll.is_body m = false
                                    /\ (Scroll.scrolls m = false
                                        \/ (m = elem /\ skipped elem ign = true))) pre).
  { intros n Hn. destruct (rec_nearest n Hn) as [r [pre [E [C [B F]]]]].
    exists r, pre. repeat split; auto.
    eapply Forall_impl; [exact F|]. simpl. intros m [M1 M2]. auto. }
  destruct elem as [e|e parent|e]; simpl in H; [| |discriminate].
  - exists (Scroll.Body e), []. repeat split; auto.
  - unfold Scroll.getScrollbarParent.
    destruct ign as [[|c s]|]; try (apply R; exact H).
    destruct (Scroll.matches e (String c s)) eqn:M; [|apply R; exact H].
    destruct (R parent H) as [r [pre [E [C [B F]]]]].
    exists r, (Scroll.Inner e parent :: pre).
    split; [exact E|]. split; [cbn [Scroll.chain app]; rewrite C; reflexivity|].
    split; [exact B|].
    constructor; [|exact F]. split; [reflexivity|]. right. split; [reflexivity|].
    exact M.
Qed.

Lemma scrollbar_parent_is_nearest_witness :
  let plain := {| Scroll.overflow_x := "visible"; Scroll.overflow_y := "visible";
                  Scroll.scrollWidth := 100; Scroll.clientWidth := 100;
                  Scroll.scrollHeight := 900; Scroll.clientHeight := 300;
                  Scroll.matches := fun _ => false |} in
  let pane := {| Scroll.overflow_x := "hidden"; Scroll.overflow_y := "auto";
                 Scroll.scrollWidth := 100; Scroll.clientWidth := 100;
                 Scroll.scrollHeight := 900; Scroll.clientHeight := 300;
                 Scroll.matches := String.eqb ".mdf-pane" |} in
  let elem := Scroll.Inner plain (Scroll.Inner pane (Scroll.Body plain)) in
  Scroll.attached elem = true
  /\ exists r pre,
       Scroll.getScrollbarParent elem (Some ".mdf-pane"%string) = Some r
       /\ Scroll.chain elem = pre ++ Scroll.chain r
       /\ (Scroll.is_body r = true \/ Scroll.scrolls r = true)
       /\ Forall (fun m => Scroll.is_body m = false
                           /\ (Scroll.scrolls m = false
                               \/ (m = elem
                                   /\ skipped elem (Some ".mdf-pane"%string) = true)))
                 pre.
Proof.
  intros plain pane elem.
  assert (H : Scroll.attached elem = true) by reflexivity.
  split; [exact H|].
  exact (scrollbar_parent_is_nearest elem (Some ".mdf-pane"%string) H).
Defined.

(** X24.  From an element that is not under the body, with nothing that
    scrolls up its chain of parents, [getScrollbarParent] does not return:
    it runs into the missing parent and throws. *)
Theorem scrollbar_parent_of_detached_throws :
  forall (elem : Scroll.node) (ignoreElem : option string),
    Scroll.attached elem = false ->
    Forall (fun m => Scroll.scrolls m = false) (Scroll.chain elem) ->
    Scroll.getScrollbarParent elem ignoreElem = None.
Proof.
  intros elem ign H F.
  pose proof (rec_detached elem H F) as R.
  destruct elem as [e|e parent|e]; simpl in H; [discriminate| |].
  - unfold Scroll.getScrollbarParent.
    destruct ign as [[|c s]|]; try exact R.
    destruct (Scroll.matches e (String c s)); [|exact R].
    cbn [Scroll.chain] in F. apply Forall_cons_1 in F as [_ F].
    apply rec_detached; assumption.
  - unfold Scroll.getScrollbarParent.
    destruct ign as [[|c s]|]; try exact R.
    destruct (Scroll.matches e (String c s)); [reflexivity|exact R].
Qed.

Lemma scrollbar_parent_of_detached_throws_witness :
  let plain := {| Scroll.overflow_x := "visible"; Scroll.overflow_y := "scroll";
                  Scroll.scrollWidth := 100; Scroll.clientWidth := 100;
                  Scroll.scrollHeight := 900; Scroll.clientHeight := 300;
                  Scroll.matches := fun _ => false |} in
  let elem := Scroll.Inner plain (Scroll.Detached plain) in
  Scroll.attached elem = false
  /\ Forall (fun m => Scroll.scrolls m = false) (Scroll.chain elem)
  /\ Scroll.getScrollbarParent elem None = None.
Proof.
  intros plain elem.
  assert (H : Scroll.attached elem = false) by reflexivity.
  assert (F : Forall (fun m => Scroll.scrolls m = false) (Scroll.chain elem))
    by (repeat constructor).
  split; [exact H|]. split; [exact F|].
  exact (scrollbar_parent_of_detached_throws elem None H F).
Defined.

(* ===================================================================== *)
(** * PreferencesManager and the theme switch                             *)
(* ===================================================================== *)

Section PreferencesFacts.
Import PreferencesManager.

Lemma classList_add_In (x c : string) (l : list string) :
  In c (classList_add x l) <-> In c l \/ c = x.
Proof.
  unfold classList_add. destruct (existsb (String.eqb x) l) eqn:E.
  - split; [auto|]. intros [H| ->]; [exact H|].
    apply existsb_exists in E as [y [Hy Hx]]. apply String.eqb_eq in Hx.
    rewrite Hx. exact Hy.
  - rewrite in_app_iff. simpl. split.
    + intros [H|[H|[]]]; auto.
    + intros [H|H]; auto.
Qed.

Lemma classList_remove_In (x c : string) (l : list string) :
  In c (classList_remove x l) <-> In c l /\ c <> x.
Proof.
  unfold classList_remove. rewrite filter_In. split.
  - intros [H N]. split; [exact H|]. intros ->. rewrite String.eqb_refl in N.
    discriminate.
  - intros [H N]. split; [exact H|]. destruct (String.eqb_spec x c) as [E|E].
    + symmetry in E. contradiction.
    + reflexivity.
Qed.

Lemma slot_inj (a b : string) : ("app-" +:+ a)%string = ("app-" +:+ b)%string -> a = b.
Proof. intros H. injection H. auto. Qed.

Lemma get_set_same (l : gmap string string) (k v : string) :
  get (set l k v) k = Some v.
Proof. unfold get, set. apply lookup_insert_eq. Qed.

Lemma get_set_other (l : gmap string string) (k k' v : string) :
  k <> k' -> get (set l k v) k' = get l k'.
Proof.
  intros N. unfold get, set. apply lookup_insert_ne. intros E.
  apply N, slot_inj, E.
Qed.

Lemma truthy_kept (v : option string) (d : string) :
  truthy v = true -> kept v d = v.
Proof. unfold kept. intros ->. reflexivity. Qed.

Lemma setDefaults_get (m : t) (l : gmap string string) :
  get (setDefaults m l) "accent" =
    (if truthy (accent m) then get l "accent" else Some "teal"%string)
  /\ get (setDefaults m l) "gradient" =
       (if truthy (gradient m) then get l "gradient" else Some "KyeMeh"%string)
  /\ get (setDefaults m l) "theme" =
       (if truthy (theme m) then get l "theme" else Some "light"%string).
Proof.
  unfold setDefaults.
  destruct (truthy (accent m)), (truthy (gradient m)), (truthy (theme m));
    repeat split;
    repeat first [rewrite get_set_same | rewrite get_set_other by discriminate];
    reflexivity.
Qed.

Lemma setDefaults_other (m : t) (l : gmap string string) (k : string) :
  ~ is_setting k -> setDefaults m l !! k = l !! k.
Proof.
  intros N. unfold setDefaults, set.
  assert (Na : ("app-" +:+ "accent")%string <> k) by (intros <-; apply N; left; reflexivity).
  assert (Ng : ("app-" +:+ "gradient")%string <> k)
    by (intros <-; apply N; right; left; reflexivity).
  assert (Nt : ("app-" +:+ "theme")%string <> k)
    by (intros <-; apply N; right; right; reflexivity).
  destruct (truthy (accent m)), (truthy (gradient m)), (truthy (theme m));
    repeat (rewrite lookup_insert_ne by assumption); reflexivity.
Qed.

Lemma new_get (l : gmap string string) :
  get (snd (new l)) "accent" = kept (get l "accent") "teal"
  /\ get (snd (new l)) "gradient" = kept (get l "gradient") "KyeMeh"
  /\ get (snd (new l)) "theme" = kept (get l "theme") "light".
Proof.
  unfold new. cbn [snd].
  destruct (setDefaults_get
              {| accent := get l "accent"; gradient := get l "gradient";
                 theme := get l "theme" |} l) as [A [G T]].
  cbn [accent gradient theme] in A, G, T. rewrite A, G, T. unfold kept.
  repeat split.
Qed.

Lemma kept_truthy (v : option string) (d : string) :
  d <> ""%string -> truthy (kept v d) = true.
Proof.
  intros N. unfold kept. destruct (truthy v) eqn:E; [exact E|].
  destruct d; [contradiction|reflexivity].
Qed.

Lemma setting_not_timer (k : string) :
  is_setting k -> JS.includes k "timer" = false.
Proof. intros [->|[->| ->]]; reflexivity. Qed.

Lemma timer_slot_not_setting (key : string) :
  ~ is_setting (Storage.prefixed App.storage key).
Proof.
  intros H. apply setting_not_timer in H.
  pose proof (prefixed_includes App.storage key) as P.
  change (Storage.prefix App.storage) with "timer"%string in P.
  rewrite P in H. discriminate.
Qed.

Lemma toggleTheme_sync :
  forall (l : gmap string string) (b : list string),
    let l' := fst (PreferencesManager.toggleTheme l b) in
    let b' := snd (PreferencesManager.toggleTheme l b) in
    (PreferencesManager.get l' "theme" = Some "dark"%string
     \/ PreferencesManager.get l' "theme" = Some "light"%string)
    /\ (PreferencesManager.get l' "theme" = Some "dark"%string <->
        PreferencesManager.get l "theme" = Some "light"%string)
    /\ (In "mdf-theme-dark"%string b' <->
        PreferencesManager.get l' "theme" = Some "dark"%string)
    /\ (forall c, c <> "mdf-theme-dark"%string -> In c b' <-> In c b)
    /\ (forall k, k <> "app-theme"%string -> l' !! k = l !! k).
Proof.
  intros l b l' b'. subst l' b'. unfold PreferencesManager.toggleTheme.
  destruct (PreferencesManager.get l "theme") as [t0|] eqn:Et.
  - destruct (String.eqb_spec t0 "light") as [E|E]; cbn [fst snd].
    + rewrite get_set_same. subst t0. split; [left; reflexivity|].
      split; [tauto|]. split.
      * rewrite classList_add_In. tauto.
      * split.
        -- intros c N. rewrite classList_add_In. tauto.
        -- intros k N. unfold PreferencesManager.set. apply lookup_insert_ne.
           intros X. apply N. symmetry. exact X.
    + rewrite get_set_same. split; [right; reflexivity|].
      split; [split; [discriminate|congruence]|]. split.
      * rewrite classList_remove_In. split; [tauto|discriminate].
      * split.
        -- intros c N. rewrite classList_remove_In. tauto.
        -- intros k N. unfold PreferencesManager.set. apply lookup_insert_ne.
           intros X. apply N. symmetry. exact X.
  - cbn [fst snd]. rewrite get_set_same. split; [right; reflexivity|].
    split; [split; discriminate|]. split.
    + rewrite classList_remove_In. split; [tauto|discriminate].
    + split.
      * intros c N. rewrite classList_remove_In. tauto.
      * intros k N. unfold PreferencesManager.set. apply lookup_insert_ne.
        intros X. apply N. symmetry. exact X.
Qed.

End PreferencesFacts.

(** X25.  Constructing a [PreferencesManager] leaves every setting with a
    non-empty value: a setting that was stored and not empty keeps its
    value, a missing or empty one gets its default (teal, KyeMeh, light);
    no other slot changes, and constructing it again changes nothing. *)
Theorem constructor_saves_missing_defaults :
  forall l : gmap string string,
    let l' := snd (PreferencesManager.new l) in
    PreferencesManager.get l' "accent" = kept (PreferencesManager.get l "accent") "teal"
    /\ PreferencesManager.get l' "gradient" =
         kept (PreferencesManager.get l "gradient") "KyeMeh"
    /\ PreferencesManager.get l' "theme" = kept (PreferencesManager.get l "theme") "light"
    /\ (forall k, ~ is_setting k -> l' !! k = l !! k)
    /\ snd (PreferencesManager.new l') = l'.
Proof.
  intros l l'. destruct (new_get l) as [A [G T]]. fold l' in A, G, T.
  split; [exact A|]. split; [exact G|]. split; [exact T|]. split.
  - intros k N. apply setDefaults_other, N.
  - unfold PreferencesManager.new at 1. cbn [snd].
    unfold PreferencesManager.setDefaults.
    cbn [PreferencesManager.accent PreferencesManager.gradient PreferencesManager.theme].
    rewrite A, G, T, !kept_truthy by discriminate. reflexivity.
Qed.

(** X26.  [applyPreferences] of a freshly constructed manager puts on the
    body the accent class of the accent now stored, also on a first run
    where the field is still [null], and the dark-theme class exactly when
    the stored theme is dark; the app container, when there is one, gets
    the class of the stored gradient. *)
Theorem applied_classes_are_the_stored_ones :
  forall (l : gmap string string) (d : PreferencesManager.Dom),
    let m := fst (PreferencesManager.new l) in
    let l' := snd (PreferencesManager.new l) in
    let d' := PreferencesManager.applyPreferences m l' d in
    exists a g th,
      PreferencesManager.get l' "accent" = Some a
      /\ PreferencesManager.get l' "gradient" = Some g
      /\ PreferencesManager.get l' "theme" = Some th
      /\ (forall c, In c (PreferencesManager.body d') <->
                    In c (PreferencesManager.body d)
                    \/ c = ("mdf-accent-" +:+ a)%string
                    \/ (th = "dark"%string /\ c = "mdf-theme-dark"%string))
      /\ PreferencesManager.appContainer d' =
           option_map (PreferencesManager.classList_add ("mdf-gradient-" +:+ g))
                      (PreferencesManager.appContainer d).
Proof.
  intros l d m l' d'. destruct (new_get l) as [A [G T]]. fold l' in A, G, T.
  assert (EA : exists a, kept (PreferencesManager.get l "accent") "teal" = Some a
                 /\ PreferencesManager.text
                      (if PreferencesManager.truthy (PreferencesManager.get l "accent")
                       then PreferencesManager.get l "accent"
                       else PreferencesManager.get l' "accent") = a).
  { rewrite A. unfold kept.
    destruct (PreferencesManager.get l "accent") as [[|c s]|]; cbn; eauto. }
  assert (EG : exists g, kept (PreferencesManager.get l "gradient") "KyeMeh" = Some g
                 /\ PreferencesManager.text
                      (if PreferencesManager.truthy (PreferencesManager.get l "gradient")
                       then PreferencesManager.get l "gradient"
                       else PreferencesManager.get l' "gradient") = g).
  { rewrite G. unfold kept.
    destruct (PreferencesManager.get l "gradient") as [[|c s]|]; cbn; eauto. }
  destruct EA as [a [Ka Ta]]. destruct EG as [g [Kg Tg]].
  assert (ET : exists th, kept (PreferencesManager.get l "theme") "light" = Some th
                 /\ (th = "dark"%string <->
                     PreferencesManager.get l "theme" = Some "dark"%string)).
  { unfold kept. destruct (PreferencesManager.get l "theme") as [[|c s]|]; cbn.
    - exists "light"%string. split; [reflexivity|]. split; discriminate.
    - exists (String c s). split; [reflexivity|]. split; congruence.
    - exists "light"%string. split; [reflexivity|]. split; discriminate. }
  destruct ET as [th [Kt Dt]].
  exists a, g, th. rewrite A, G, T. split; [exact Ka|]. split; [exact Kg|].
  split; [exact Kt|]. split.
  - intros c. subst d'. unfold PreferencesManager.applyPreferences.
    cbn [PreferencesManager.body]. subst m. unfold PreferencesManager.new.
    cbn [fst PreferencesManager.accent PreferencesManager.gradient
         PreferencesManager.theme].
    fold l'. rewrite Ta.
    destruct (PreferencesManager.get l "theme") as [t0|] eqn:Et.
    + destruct (String.eqb_spec t0 "dark") as [E|E].
      * rewrite !classList_add_In. subst t0.
        assert (th = "dark"%string) by (apply Dt; reflexivity). tauto.
      * rewrite classList_add_In.
        assert (th <> "dark"%string) by (intros X; apply Dt in X; congruence). tauto.
    + rewrite classList_add_In.
      assert (th <> "dark"%string) by (intros X; apply Dt in X; congruence). tauto.
  - subst d'. unfold PreferencesManager.applyPreferences.
    cbn [PreferencesManager.appContainer]. subst m. unfold PreferencesManager.new.
    cbn [fst PreferencesManager.accent PreferencesManager.gradient
         PreferencesManager.theme].
    fold l'. rewrite Tg. destruct (PreferencesManager.appContainer d); reflexivity.
Qed.

(** X27.  The theme switch keeps the body and the store in step: after
    [toggleTheme] the stored theme is dark or light, dark exactly when it
    was light before, the body has the dark-theme class exactly when the
    stored theme is dark, its other classes are as they were, and no
    other slot of the store changes. *)
Theorem toggleTheme_keeps_class_and_store_in_step :
  forall (l : gmap string string) (b : list string),
    let l' := fst (PreferencesManager.toggleTheme l b) in
    let b' := snd (PreferencesManager.toggleTheme l b) in
    (PreferencesManager.get l' "theme" = Some "dark"%string
     \/ PreferencesManager.get l' "theme" = Some "light"%string)
    /\ (PreferencesManager.get l' "theme" = Some "dark"%string <->
        PreferencesManager.get l "theme" = Some "light"%string)
    /\ (In "mdf-theme-dark"%string b' <->
        PreferencesManager.get l' "theme" = Some "dark"%string)
    /\ (forall c, c <> "mdf-theme-dark"%string -> In c b' <-> In c b)
    /\ (forall k, k <> "app-theme"%string -> l' !! k = l !! k).
Proof. exact toggleTheme_sync. Qed.

(** X28.  The theme chosen with the switch survives a reload: a manager
    constructed from the store the switch left applies the dark-theme
    class to a body without it exactly when the switch left it on the
    body, and its constructor changes nothing in that store's theme. *)
Theorem toggled_theme_survives_reload :
  forall (l : gmap string string) (b : list string) (d : PreferencesManager.Dom),
    ~ In "mdf-theme-dark"%string (PreferencesManager.body d) ->
    let l1 := fst (PreferencesManager.toggleTheme l b) in
    let b1 := snd (PreferencesManager.toggleTheme l b) in
    let m := fst (PreferencesManager.new l1) in
    let l2 := snd (PreferencesManager.new l1) in
    PreferencesManager.get l2 "theme" = PreferencesManager.get l1 "theme"
    /\ (In "mdf-theme-dark"%string
           (PreferencesManager.body (PreferencesManager.applyPreferences m l2 d))
        <-> In "mdf-theme-dark"%string b1).
Proof.
  intros l b d Hd l1 b1 m l2.
  destruct (toggleTheme_sync l b) as [S1 [_ [S3 _]]]. fold l1 b1 in S1, S3.
  destruct (new_get l1) as [_ [_ T]]. fold l2 in T.
  assert (K : kept (PreferencesManager.get l1 "theme") "light" =
              PreferencesManager.get l1 "theme").
  { destruct S1 as [E|E]; rewrite E; reflexivity. }
  rewrite K in T. split; [exact T|]. rewrite S3.
  subst m. unfold PreferencesManager.applyPreferences, PreferencesManager.new.
  cbn [fst PreferencesManager.body PreferencesManager.accent
       PreferencesManager.gradient PreferencesManager.theme].
  set (acc := PreferencesManager.text _).
  assert (NA : "mdf-theme-dark"%string <> ("mdf-accent-" +:+ acc)%string)
    by discriminate.
  destruct S1 as [E|E]; rewrite E.
  - change (String.eqb "dark" "dark") with true. cbn iota.
    rewrite classList_add_In. tauto.
  - change (String.eqb "light" "dark") with false. cbn iota.
    rewrite classList_add_In. split; [|discriminate]. intros [H|H]; tauto.
Qed.

Lemma toggled_theme_survives_reload_witness :
  let l : gmap string string := {[ "app-theme"%string := "light"%string ]} in
  let d := {| PreferencesManager.appContainer := Some [];
              PreferencesManager.body := ["mdf-accent-teal"%string] |} in
  let l1 := fst (PreferencesManager.toggleTheme l []) in
  ~ In "mdf-theme-dark"%string (PreferencesManager.body d)
  /\ PreferencesManager.get l1 "theme" = Some "dark"%string
  /\ In "mdf-theme-dark"%string
        (PreferencesManager.body
           (PreferencesManager.applyPreferences
              (fst (PreferencesManager.new l1)) (snd (PreferencesManager.new l1)) d)).
Proof.
  intros l d l1.
  assert (H : ~ In "mdf-theme-dark"%string (PreferencesManager.body d)).
  { simpl. intros [X|[]]. discriminate. }
  split; [exact H|]. split; [reflexivity|].
  apply (toggled_theme_survives_reload l [] d H). simpl. left. reflexivity.
Defined.

(** X29.  Preferences and timers do not meet in [localStorage]: neither
    constructing a [PreferencesManager] nor the theme switch changes what
    the timer store reads under any key or which keys it lists. *)
Theorem preferences_leave_timers_alone :
  forall (l : gmap string string) (b : list string) (key : string),
    let l1 := snd (PreferencesManager.new l) in
    let l2 := fst (PreferencesManager.toggleTheme l b) in
    Storage.get App.storage l1 key = Storage.get App.storage l key
    /\ Storage.get App.storage l2 key = Storage.get App.storage l key
    /\ (In key (Storage.keys App.storage l1) <-> In key (Storage.keys App.storage l))
    /\ (In key (Storage.keys App.storage l2) <-> In key (Storage.keys App.storage l)).
Proof.
  intros l b key l1 l2.
  assert (P1 : forall k, ~ is_setting k -> l1 !! k = l !! k).
  { intros k N. apply setDefaults_other, N. }
  assert (P2 : forall k, ~ is_setting k -> l2 !! k = l !! k).
  { intros k N. apply (toggleTheme_sync l b). intros ->. apply N.
    right; right; reflexivity. }
  assert (G : forall l', (forall k, ~ is_setting k -> l' !! k = l !! k) ->
              Storage.get App.storage l' key = Storage.get App.storage l key
              /\ (In key (Storage.keys App.storage l') <->
                  In key (Storage.keys App.storage l))).
  { intros l' P. split.
    - unfold Storage.get. rewrite P by apply timer_slot_not_setting. reflexivity.
    - rewrite !keys_spec. split; intros [H I]; (split; [|exact I]).
      + rewrite <- P; [exact H|]. intros X. apply setting_not_timer in X.
        change (Storage.prefix App.storage) with "timer"%string in I. congruence.
      + rewrite P; [exact H|]. intros X. apply setting_not_timer in X.
        change (Storage.prefix App.storage) with "timer"%string in I. congruence. }
  destruct (G l1 P1) as [A1 B1]. destruct (G l2 P2) as [A2 B2]. tauto.
Qed.
